(** * Context compression of the bytebot agent: a shallow embedding

    Source: [ContextCompressionService] (context-compression.service.ts of
    packages/bytebot-agent).  The service counts the tokens of a transcript
    and reduces it with one of four strategies (summarize, truncate,
    sliding-window, priority-based) chosen by [compressContext].

    Conventions of the embedding.
    - A JavaScript [number] that holds a budget, a threshold, a window size
      or a priority is a rational ([Q]); the constants 0.75, 0.6, 0.5, 0.3,
      0.2 and 0.8 are the rationals they denote, and products and quotients
      are exact where the doubles round.  Lengths, indices, token counts
      and [preserveRecent] are natural numbers.
    - A message is a JavaScript object: [===], [indexOf] and [includes]
      compare object identity, not structure.  Every message carries its
      identity in the field [oid]; an object built by a spread
      ([{...message, content: ...}]) or by a literal receives an identity
      that is not in use.
    - Strings are sequences of characters; [toLowerCase] acts on the ASCII
      letters.
    - The tokenizer ([encode] of the package gpt-tokenizer) and
      [JSON.stringify] are libraries outside the repository: they are
      parameters of the development.  Only the length of [encode]'s result
      is ever used by the service.
    - [summarizeContext] may call itself forever; it is given as one
      activation ([summarizeStep]), a fuel-bounded run and a relation. *)

From Stdlib Require Import String Ascii List Arith ZArith QArith Qround Qminmax.
From Stdlib Require Import Lia Lqa Bool Permutation Sorted DecimalString.
From Equations Require Import Equations.
Import ListNotations.

Set Implicit Arguments.
Local Open Scope nat_scope.
Local Open Scope list_scope.

(** ** JavaScript array, string and number primitives used by the service *)

Module JS.

Definition number := Q.

Definition of_nat (n : nat) : number := inject_Z (Z.of_nat n).

(** [a <= b], [a < b], [a > b] on numbers. *)
Definition le (a b : number) : bool := Qle_bool a b.
Definition lt (a b : number) : bool := negb (Qle_bool b a).
Definition gt (a b : number) : bool := lt b a.
Definition ge (a b : number) : bool := le b a.

(** [Math.floor] and [Math.ceil]. *)
Definition floor (a : number) : Z := Qfloor a.
Definition ceil (a : number) : Z := Qceiling a.

(** [Math.min], and the quotient of two counts ([0/0] is NaN, [n/0] is
    Infinity). *)
Definition min (a b : number) : number := Qmin a b.

Inductive quotient := Finite (q : Q) | NaN | Infinity.

Definition div (a b : nat) : quotient :=
  match b, a with
  | 0, 0 => NaN
  | 0, _ => Infinity
  | _, _ => Finite (of_nat a / of_nat b)
  end.

(** Clamping of a relative index, as [Array.prototype.slice] does. *)
Definition clamp (len k : Z) : Z :=
  if (k <? 0)%Z then Z.max (len + k) 0 else Z.min k len.

(** [arr.slice(start, end)]. *)
Definition slice {A} (l : list A) (start stop : Z) : list A :=
  let len := Z.of_nat (length l) in
  let k := clamp len start in
  let final := clamp len stop in
  firstn (Z.to_nat (final - k)) (skipn (Z.to_nat k) l).

(** [arr.slice(start)]. *)
Definition slice_from {A} (l : list A) (start : Z) : list A :=
  skipn (Z.to_nat (clamp (Z.of_nat (length l)) start)) l.

(** [arr.indexOf(x)], with [same] the strict equality of the elements. *)
Fixpoint indexOf_from {A} (same : A -> A -> bool) (x : A) (l : list A)
         (i : Z) : Z :=
  match l with
  | [] => (-1)%Z
  | y :: l' => if same y x then i else indexOf_from same x l' (i + 1)%Z
  end.

Definition indexOf {A} (same : A -> A -> bool) (l : list A) (x : A) : Z :=
  indexOf_from same x l 0%Z.

(** [arr.includes(x)]. *)
Definition includes {A} (same : A -> A -> bool) (l : list A) (x : A) : bool :=
  existsb (fun y => same y x) l.

(** [arr.find(p)]. *)
Definition find {A} (p : A -> bool) (l : list A) : option A := List.find p l.

(** [arr.sort(cmp)]: a stable sort; [cmp a b > 0] moves [a] after [b]. *)
Fixpoint insert {A} (cmp : A -> A -> number) (x : A) (l : list A) : list A :=
  match l with
  | [] => [x]
  | y :: l' => if gt (cmp x y) 0%Q then y :: insert cmp x l' else x :: l
  end.

Definition sort {A} (cmp : A -> A -> number) (l : list A) : list A :=
  fold_right (insert cmp) [] l.

(** [[...new Set(arr)]]: first occurrences, in insertion order. *)
Fixpoint set_add (x : nat) (seen : list nat) : list nat :=
  match seen with
  | [] => [x]
  | y :: s => if Nat.eqb y x then seen else y :: set_add x s
  end.

Definition set_of (l : list nat) : list nat :=
  fold_left (fun seen x => set_add x seen) l [].

(** [s.substring(0, n)], [s.toLowerCase()] on ASCII letters,
    [s.includes(t)], and the decimal rendering of a length. *)
Definition substring0 (s : string) (n : Z) : string :=
  String.substring 0 (Z.to_nat n) s.

Definition lower_ascii (c : ascii) : ascii :=
  let n := nat_of_ascii c in
  if (65 <=? n) && (n <=? 90) then ascii_of_nat (n + 32) else c.

Fixpoint toLowerCase (s : string) : string :=
  match s with
  | EmptyString => EmptyString
  | String c s' => String (lower_ascii c) (toLowerCase s')
  end.

Fixpoint str_includes (s t : string) : bool :=
  if String.prefix t s then true
  else match s with
       | EmptyString => false
       | String _ s' => str_includes s' t
       end.

Definition string_of_nat (n : nat) : string :=
  NilEmpty.string_of_uint (Nat.to_uint n).

Definition nl : string := String (ascii_of_nat 10) EmptyString.

(** [arr.join(sep)]. *)
Fixpoint join (sep : string) (l : list string) : string :=
  match l with
  | [] => EmptyString
  | [s] => s
  | s :: l' => (s ++ sep ++ join sep l')%string
  end.

End JS.

(** ** Data model (Anthropic SDK [MessageParam]) *)

Inductive Role := user | assistant.

Definition Role_eqb (a b : Role) : bool :=
  match a, b with
  | user, user | assistant, assistant => true
  | _, _ => false
  end.

Definition role_name (r : Role) : string :=
  match r with user => "user" | assistant => "assistant" end.

(** Case analysis on a test that keeps the equation of the branch taken. *)
Definition inspect {A : Type} (x : A) : {y : A | x = y} := exist _ x eq_refl.

Section Service.

(** Structured data (the [input] of a tool_use, the non-string [content]
    of a tool_result) and its serialisation. *)
Variable json : Type.
Variable JSON_stringify : json -> string.

(** The tokenizer. *)
Variable token : Type.
Variable encode : string -> list token.

Inductive ToolResultContent :=
| ResultText (s : string)
| ResultData (d : json).

Inductive ContentBlock :=
| text_block (text : string)
| tool_use (id name : string) (input : json)
| tool_result (tool_use_id : string) (content : ToolResultContent)
| other_block (type : string) (data : json).

Inductive Content :=
| Text (s : string)
| Blocks (bs : list ContentBlock).

Record MessageParam := mkMessage {
  oid : nat;
  role : Role;
  content : Content;
}.

(** [JSON.stringify(message.content)] when the content is an array. *)
Variable JSON_stringify_blocks : list ContentBlock -> string.

(** Strict equality of two message objects. *)
Definition same (a b : MessageParam) : bool := Nat.eqb (oid a) (oid b).

(** The turns of a transcript are distinct objects. *)
Definition distinct_turns (messages : list MessageParam) : Prop :=
  NoDup (map oid messages).

(** *** countTokens *)

Definition blockTokens (block : ContentBlock) : nat :=
  match block with
  | text_block text => length (encode text)
  | tool_use _ _ input => length (encode (JSON_stringify input))
  | tool_result _ c =>
      let content := match c with
                     | ResultText s => s
                     | ResultData d => JSON_stringify d
                     end in
      length (encode content)
  | other_block _ _ => 0
  end.

Definition messageTokens (message : MessageParam) : nat :=
  match content message with
  | Text s => length (encode s)
  | Blocks bs => fold_left (fun total block => total + blockTokens block) bs 0
  end.

Definition countTokens (messages : list MessageParam) : nat :=
  fold_left (fun totalTokens message => totalTokens + messageTokens message)
            messages 0.

(** *** Turn classifiers *)

Definition errorKeywords : list string :=
  ["error"; "exception"; "failed"; "failure"; "invalid"; "unable"]%string.

Definition messageContainsError (message : MessageParam) : bool :=
  let content := match content message with
                 | Text s => s
                 | Blocks bs => JSON_stringify_blocks bs
                 end in
  existsb (fun keyword => JS.str_includes (JS.toLowerCase content) keyword)
          errorKeywords.

Definition messageHasToolUse (message : MessageParam) : bool :=
  match content message with
  | Text _ => false
  | Blocks bs =>
      existsb (fun block => match block with
                            | tool_use _ _ _ | tool_result _ _ => true
                            | _ => false
                            end) bs
  end.

(** An identity that no object of [messages] carries. *)
Definition fresh_oid (messages : list MessageParam) : nat :=
  S (list_max (map oid messages)).

(** *** truncateContext *)

(** The [for] loop of [truncateContext]: [older] lists [messages[i]] for
    [i = messages.length - preserveRecent - 1] down to [0]; the loop
    stops at the first message that does not fit. *)
Fixpoint unshift_while_fits (older : list MessageParam)
         (targetTokens : JS.number) (currentTokens : nat)
         (result : list MessageParam) : list MessageParam :=
  match older with
  | [] => result
  | m :: rest =>
      let messageTokens := countTokens [m] in
      if JS.le (JS.of_nat (currentTokens + messageTokens)) targetTokens
      then unshift_while_fits rest targetTokens
                              (currentTokens + messageTokens) (m :: result)
      else result
  end.

Definition default_preserveRecent : nat := 5.


Equations? truncateContext (messages : list MessageParam)
           (targetTokens : JS.number) (preserveRecent : nat)
  : list MessageParam
  by wf (2 * length messages + match preserveRecent with 0 => 1 | _ => 0 end) lt :=
  truncateContext messages targetTokens preserveRecent
    with inspect (length messages <=? preserveRecent) := {
    | exist _ true _ => messages
    | exist _ false Hlen =>
        let recentMessages := JS.slice_from messages (- Z.of_nat preserveRecent) in
        let currentTokens := countTokens recentMessages in
        if JS.gt (JS.of_nat currentTokens) targetTokens
        then truncateContext recentMessages targetTokens
                             (Nat.max 1 (preserveRecent - 1))
        else unshift_while_fits
               (rev (firstn (length messages - preserveRecent) messages))
               targetTokens currentTokens recentMessages }.
Proof.
  apply Nat.leb_gt in Hlen.
  assert (length recentMessages =
          match preserveRecent with
          | 0 => length messages
          | _ => Nat.min preserveRecent (length messages)
          end) as HL.
  { subst recentMessages. unfold JS.slice_from, JS.clamp.
    rewrite length_skipn.
    destruct preserveRecent as [|p].
    - simpl. rewrite Z.min_l by lia. simpl. lia.
    - destruct (Z.ltb_spec (- Z.of_nat (S p)) 0); lia. }
  clearbody recentMessages.
  destruct preserveRecent as [|[|p]]; simpl; lia.
Qed.

(** *** summarizeContext *)

Definition generateSummary (messages : list MessageParam) : string :=
  let contextText :=
    JS.join (JS.nl ++ JS.nl)%string
      (map (fun m => match content m with
                     | Text c => (role_name (role m) ++ ": " ++ c)%string
                     | Blocks bs =>
                         (role_name (role m) ++ ": "
                          ++ JSON_stringify_blocks bs)%string
                     end) messages) in
  let users := filter (fun m => Role_eqb (role m) user) messages in
  let assistants := filter (fun m => Role_eqb (role m) assistant) messages in
  ("The following conversation has been summarized for context compression:"
  ++ JS.nl ++ "    " ++ JS.nl
  ++ "Key Points:" ++ JS.nl
  ++ "- " ++ JS.string_of_nat (length users) ++ " user messages" ++ JS.nl
  ++ "- " ++ JS.string_of_nat (length assistants) ++ " assistant responses"
  ++ JS.nl
  ++ "- Main topics discussed: [Analysis of conversation topics would go here]"
  ++ JS.nl ++ JS.nl
  ++ "Summary of conversation:" ++ JS.nl
  ++ JS.substring0 contextText 2000
  ++ "... [Additional context available if needed]")%string.

(** The synthetic turn that carries the summary; [id] is its identity. *)
Definition summaryMessage (id : nat) (summary : string) : MessageParam :=
  {| oid := id;
     role := user;
     content := Blocks [text_block ("[CONTEXT SUMMARY]" ++ JS.nl ++ summary
                                     ++ JS.nl ++ "[END SUMMARY]")%string] |}.

(** One activation of [summarizeContext]: it either returns or calls
    itself on [preserved]. *)
Inductive SummarizeStep :=
| Return (messages : list MessageParam) (summary : string)
| Recurse (preserved : list MessageParam).

Definition summarizeStep (messages : list MessageParam)
           (targetTokens : JS.number) : SummarizeStep :=
  let preserveCount := JS.floor (JS.of_nat (length messages) * (2 # 10))%Q in
  let toSummarize := JS.slice messages 0 (- preserveCount) in
  let preserved := JS.slice_from messages (- preserveCount) in
  let summary := generateSummary toSummarize in
  let compressedMessages :=
    summaryMessage (fresh_oid messages) summary :: preserved in
  if JS.gt (JS.of_nat (countTokens compressedMessages)) targetTokens
  then Recurse preserved
  else Return compressedMessages summary.

(** [summarizeContext] run for at most [fuel] activations; [None] when the
    recursion has not returned by then. *)
Fixpoint summarizeContext (fuel : nat) (messages : list MessageParam)
         (targetTokens : JS.number) : option (list MessageParam * string) :=
  match fuel with
  | 0 => None
  | S fuel' =>
      match summarizeStep messages targetTokens with
      | Return compressedMessages summary => Some (compressedMessages, summary)
      | Recurse preserved => summarizeContext fuel' preserved targetTokens
      end
  end.

(** The same recursion as a relation: [summarize_returns t messages r]
    holds when the call on [messages] with budget [t] returns [r]. *)
Inductive summarize_returns (targetTokens : JS.number)
  : list MessageParam -> list MessageParam * string -> Prop :=
| summarize_done messages compressedMessages summary :
    summarizeStep messages targetTokens = Return compressedMessages summary ->
    summarize_returns targetTokens messages (compressedMessages, summary)
| summarize_again messages preserved r :
    summarizeStep messages targetTokens = Recurse preserved ->
    summarize_returns targetTokens preserved r ->
    summarize_returns targetTokens messages r.

(** *** slidingWindowCompress *)

Definition identifyImportantMessages (messages : list MessageParam)
  : list nat :=
  let important :=
    fold_left
      (fun important '(index, message) =>
         let important :=
           if Role_eqb (role message) user
           then important ++ [index] else important in
         let important :=
           if messageContainsError message
           then important ++ [index] else important in
         if (index =? 0) || (index =? length messages - 1)
         then important ++ [index] else important)
      (combine (seq 0 (length messages)) messages) [] in
  JS.set_of important.

Definition selectRepresentative (window : list MessageParam)
  : option MessageParam :=
  match window with
  | [] => None
  | first :: rest =>
      match JS.find (fun m => Role_eqb (role m) user) window with
      | Some userMessage => Some userMessage
      | None =>
          match JS.find messageContainsError window with
          | Some errorMessage => Some errorMessage
          | None =>
              Some (fold_left
                      (fun shortest current =>
                         if countTokens [current] <? countTokens [shortest]
                         then current else shortest)
                      rest first)
          end
      end
  end.

(** The comparator of the final sorts: position in [messages]. *)
Definition by_position (messages : list MessageParam)
           (a b : MessageParam) : JS.number :=
  inject_Z (JS.indexOf same messages a - JS.indexOf same messages b).

(** First loop: the important messages, under 30% of the budget. *)
Definition push_important (messages : list MessageParam)
           (targetTokens : JS.number) (important : list nat)
  : list MessageParam :=
  fold_left
    (fun result idx =>
       match nth_error messages idx with
       | Some m =>
           if JS.le (JS.of_nat (countTokens (result ++ [m])))
                    (targetTokens * (3 # 10))%Q
           then result ++ [m] else result
       | None => result
       end)
    important [].

(** The values of [i] in [for (i = length - 1; i >= 0; i -= stride)]. *)
Definition window_ends (len stride : nat) : list nat :=
  match len with
  | 0 => []
  | S last => map (fun k => last - k * stride) (seq 0 (S (last / stride)))
  end.

(** Second loop: one representative per window, until one overflows. *)
Fixpoint push_representatives (messages : list MessageParam)
         (targetTokens : JS.number) (windowSize : nat) (ends : list nat)
         (result : list MessageParam) : list MessageParam :=
  match ends with
  | [] => result
  | i :: ends' =>
      let window :=
        JS.slice messages (Z.max 0 (Z.of_nat i - Z.of_nat windowSize))
                 (Z.of_nat i + 1) in
      match selectRepresentative window with
      | Some representative =>
          if negb (JS.includes same result representative)
          then
            let newResult :=
              JS.sort (by_position messages) (result ++ [representative]) in
            if JS.le (JS.of_nat (countTokens newResult)) targetTokens
            then push_representatives messages targetTokens windowSize ends'
                                      (result ++ [representative])
            else result
          else push_representatives messages targetTokens windowSize ends'
                                    result
      | None => push_representatives messages targetTokens windowSize ends'
                                     result
      end
  end.

Definition slidingWindowCompress (messages : list MessageParam)
           (targetTokens : JS.number) : list MessageParam :=
  let windowSize :=
    Z.to_nat (JS.ceil (JS.of_nat (length messages) * (3 # 10))%Q) in
  let stride :=
    Nat.max 1 (Z.to_nat (JS.floor (JS.of_nat windowSize * (5 # 10))%Q)) in
  let important := identifyImportantMessages messages in
  let result := push_important messages targetTokens important in
  let result :=
    push_representatives messages targetTokens windowSize
                         (window_ends (length messages) stride) result in
  JS.sort (by_position messages) result.

(** *** priorityBasedCompress *)

Record MessagePriority := mkPriority {
  message : MessageParam;
  priority : JS.number;
  tokenCount : nat;
  isToolUse : bool;
  hasError : bool;
}.

Definition calculatePriorities (messages : list MessageParam)
  : list MessagePriority :=
  map (fun '(index, message) =>
         let priority := 0%Q in
         let priority :=
           (priority
            + JS.of_nat index / JS.of_nat (length messages) * 30)%Q in
         let priority :=
           if Role_eqb (role message) user
           then (priority + 20)%Q else priority in
         let hasError := messageContainsError message in
         let priority := if hasError then (priority + 25)%Q else priority in
         let isToolUse := messageHasToolUse message in
         let priority := if isToolUse then (priority + 10)%Q else priority in
         let priority :=
           if (index =? 0) || (index =? length messages - 1)
           then (priority + 15)%Q else priority in
         let tokenCount := countTokens [message] in
         let priority :=
           if tokenCount <? 100 then (priority + 5)%Q
           else if 1000 <? tokenCount then (priority - 10)%Q
                else priority in
         mkPriority message priority tokenCount isToolUse hasError)
      (combine (seq 0 (length messages)) messages).

Definition TRUNCATED : string := "... [TRUNCATED]".

(** The block loop of [truncateMessage]. *)
Fixpoint truncate_blocks (id : nat) (r : Role) (blocks : list ContentBlock)
         (maxTokens : JS.number) (currentTokens : nat)
         (truncatedBlocks : list ContentBlock) : list ContentBlock :=
  match blocks with
  | [] => truncatedBlocks
  | block :: rest =>
      let blockTokens := countTokens [mkMessage id r (Blocks [block])] in
      if JS.le (JS.of_nat (currentTokens + blockTokens)) maxTokens
      then truncate_blocks id r rest maxTokens (currentTokens + blockTokens)
                           (truncatedBlocks ++ [block])
      else
        match block with
        | text_block text =>
            if JS.lt (JS.of_nat currentTokens) (maxTokens * (8 # 10))%Q
            then
              let remainingTokens :=
                (maxTokens - JS.of_nat currentTokens)%Q in
              let truncatedText :=
                JS.substring0 text
                  (JS.floor (JS.of_nat (String.length text)
                             * (remainingTokens / JS.of_nat blockTokens))%Q) in
              truncatedBlocks ++ [text_block (truncatedText ++ TRUNCATED)%string]
            else truncate_blocks id r rest maxTokens currentTokens
                                 truncatedBlocks
        | _ => truncate_blocks id r rest maxTokens currentTokens
                               truncatedBlocks
        end
  end.

(** [truncateMessage]; [id] is the identity given to the object it
    builds.  [None] is the [null] result. *)
Definition truncateMessage (message : MessageParam) (maxTokens : JS.number)
           (id : nat) : option MessageParam :=
  match content message with
  | Text c =>
      let tokens := encode c in
      if JS.le (JS.of_nat (length tokens)) maxTokens then Some message
      else
        let truncatedText :=
          JS.substring0 c
            (JS.floor (JS.of_nat (String.length c)
                       * (maxTokens / JS.of_nat (length tokens)))%Q) in
        Some (mkMessage id (role message)
                        (Text (truncatedText ++ TRUNCATED)%string))
  | Blocks bs =>
      let truncatedBlocks :=
        truncate_blocks id (role message) bs maxTokens 0 [] in
      if 0 <? length truncatedBlocks
      then Some (mkMessage id (role message) (Blocks truncatedBlocks))
      else None
  end.

(** The state of the selection loop: [result], [currentTokens] and the
    next unused identity. *)
Definition priority_step (targetTokens : JS.number)
           (st : list MessageParam * nat * nat) (item : MessagePriority)
  : list MessageParam * nat * nat :=
  let '(result, currentTokens, next) := st in
  if JS.le (JS.of_nat (currentTokens + tokenCount item)) targetTokens
  then (result ++ [message item], currentTokens + tokenCount item, next)
  else if JS.lt (JS.of_nat currentTokens) (targetTokens * (5 # 10))%Q
       then
         match truncateMessage (message item)
                               (targetTokens - JS.of_nat currentTokens)%Q
                               next with
         | Some truncated =>
             (result ++ [truncated], countTokens (result ++ [truncated]),
              S next)
         | None => (result, currentTokens, S next)
         end
       else st.

Definition priorityBasedCompress (messages : list MessageParam)
           (targetTokens : JS.number) : list MessageParam :=
  let priorities := calculatePriorities messages in
  let priorities :=
    JS.sort (fun a b => (priority b - priority a)%Q) priorities in
  let '(result, _, _) :=
    fold_left (priority_step targetTokens) priorities
              ([], 0, fresh_oid messages) in
  JS.sort (by_position messages) result.

(** *** compressContext, detectContextOverflow, adaptiveCompress *)

Inductive StrategyType := summarize | truncate | sliding_window | priority_based.

Record CompressionStrategy := mkStrategy {
  type : StrategyType;
  maxTokens : JS.number;
  preserveRecent : option nat;
  preserveImportant : option bool;
}.

Record CompressedContext := mkCompressed {
  messages : list MessageParam;
  summary : option string;
  compressionRatio : JS.quotient;
  originalTokenCount : nat;
  compressedTokenCount : nat;
  strategy : CompressionStrategy;
}.

Definition DEFAULT_MAX_TOKENS : JS.number := 150000%Q.
Definition COMPRESSION_THRESHOLD : JS.number := (75 # 100)%Q.

(** The default value of the parameter [modelContextWindow]. *)
Definition window_or_default (modelContextWindow : option JS.number)
  : JS.number :=
  match modelContextWindow with
  | Some w => w
  | None => DEFAULT_MAX_TOKENS
  end.

(** The four private methods [compressContext] dispatches to.  A
    summarizer may fail to return. *)
Record Strategies := mkStrategies {
  run_summarize :
    list MessageParam -> JS.number -> option (list MessageParam * string);
  run_truncate : list MessageParam -> JS.number -> nat -> list MessageParam;
  run_slidingWindow : list MessageParam -> JS.number -> list MessageParam;
  run_priorityBased : list MessageParam -> JS.number -> list MessageParam;
}.

Definition compressContextWith (this : Strategies)
           (msgs : list MessageParam) (strat : CompressionStrategy)
           (modelContextWindow : option JS.number)
  : option CompressedContext :=
  let modelContextWindow := window_or_default modelContextWindow in
  let originalTokenCount := countTokens msgs in
  let targetTokens :=
    JS.min (maxTokens strat) (modelContextWindow * COMPRESSION_THRESHOLD)%Q in
  if JS.le (JS.of_nat originalTokenCount) targetTokens
  then Some (mkCompressed msgs None (JS.Finite 1) originalTokenCount
                          originalTokenCount strat)
  else
    let dispatched :=
      match type strat with
      | summarize =>
          match run_summarize this msgs targetTokens with
          | Some (compressedMessages, summary) =>
              Some (compressedMessages, Some summary)
          | None => None
          end
      | truncate =>
          Some (run_truncate this msgs targetTokens
                  (match preserveRecent strat with
                   | Some p => p
                   | None => default_preserveRecent
                   end), None)
      | sliding_window =>
          Some (run_slidingWindow this msgs targetTokens, None)
      | priority_based =>
          Some (run_priorityBased this msgs targetTokens, None)
      end in
    match dispatched with
    | Some (compressedMessages, summary) =>
        let compressedTokenCount := countTokens compressedMessages in
        Some (mkCompressed compressedMessages summary
                           (JS.div compressedTokenCount originalTokenCount)
                           originalTokenCount compressedTokenCount strat)
    | None => None
    end.

(** The service's own methods; [fuel] bounds the activations of
    [summarizeContext]. *)
Definition service (fuel : nat) : Strategies :=
  mkStrategies (summarizeContext fuel) truncateContext
               slidingWindowCompress priorityBasedCompress.

Definition compressContext (fuel : nat) :=
  compressContextWith (service fuel).

Definition detectContextOverflow (currentTokens modelContextWindow : JS.number)
  : bool :=
  JS.ge currentTokens (modelContextWindow * COMPRESSION_THRESHOLD)%Q.

Definition selectBestStrategy (msgs : list MessageParam)
           (currentTokens : nat) (modelContextWindow : JS.number)
  : StrategyType := truncate.

Definition adaptiveCompress (fuel : nat) (msgs : list MessageParam)
           (modelContextWindow : JS.number)
           (preferredStrategy : option StrategyType)
  : option CompressedContext :=
  let currentTokens := countTokens msgs in
  if negb (detectContextOverflow (JS.of_nat currentTokens) modelContextWindow)
  then Some (mkCompressed msgs None (JS.Finite 1) currentTokens currentTokens
                          (mkStrategy truncate modelContextWindow None None))
  else
    let targetTokens := JS.floor (modelContextWindow * (6 # 10))%Q in
    let strat :=
      mkStrategy
        (match preferredStrategy with
         | Some t => t
         | None => selectBestStrategy msgs currentTokens modelContextWindow
         end)
        (inject_Z targetTokens)
        (Some (Nat.min 10
                 (Z.to_nat (JS.floor (JS.of_nat (length msgs) * (3 # 10))%Q))))
        (Some true) in
    compressContext fuel msgs strat (Some modelContextWindow).

(** *** hasHighPriorityMessages *)

Definition hasHighPriorityMessages (msgs : list MessageParam) : bool :=
  let errorCount := length (filter messageContainsError msgs) in
  let userMessageCount :=
    length (filter (fun m => Role_eqb (role m) user) msgs) in
  JS.gt (JS.of_nat errorCount) (JS.of_nat (length msgs) * (1 # 10))%Q
  || JS.gt (JS.of_nat userMessageCount) (JS.of_nat (length msgs) * (4 # 10))%Q.

End Service.

Arguments ResultText {json}.
Arguments text_block {json}.
Arguments Text {json}.
Arguments Blocks {json}.
Arguments Return {json}.
Arguments Recurse {json}.

(** ** A concrete host: a byte-level tokenizer and a plain serialiser

    The properties below hold for every tokenizer.  Closed examples need
    one: [Sample.encode] yields one token per character, which is what a
    byte-pair encoder does before any merge.  Structured data is carried
    in serialised form. *)

Module Sample.

Definition json : Type := string.
Definition JSON_stringify (d : json) : string := d.

Definition token : Type := ascii.
Definition encode (s : string) : list token := list_ascii_of_string s.

Definition quote : string := String (ascii_of_nat 34) EmptyString.

Definition field (k v : string) : string :=
  (quote ++ k ++ quote ++ ":" ++ v)%string.

Definition quoted (s : string) : string := (quote ++ s ++ quote)%string.

Definition stringify_block (b : ContentBlock json) : string :=
  match b with
  | text_block t =>
      "{" ++ field "type" (quoted "text") ++ "," ++ field "text" (quoted t)
      ++ "}"
  | tool_use id name input =>
      "{" ++ field "type" (quoted "tool_use") ++ ","
      ++ field "id" (quoted id) ++ "," ++ field "name" (quoted name) ++ ","
      ++ field "input" input ++ "}"
  | tool_result id (ResultText c) =>
      "{" ++ field "type" (quoted "tool_result") ++ ","
      ++ field "tool_use_id" (quoted id) ++ ","
      ++ field "content" (quoted c) ++ "}"
  | tool_result id (ResultData d) =>
      "{" ++ field "type" (quoted "tool_result") ++ ","
      ++ field "tool_use_id" (quoted id) ++ "," ++ field "content" d ++ "}"
  | other_block type data =>
      "{" ++ field "type" (quoted type) ++ "," ++ field "data" data ++ "}"
  end%string.

Definition JSON_stringify_blocks (bs : list (ContentBlock json)) : string :=
  ("[" ++ JS.join "," (map stringify_block bs) ++ "]")%string.

Definition Message := MessageParam json.

(** A text turn. *)
Definition turn (id : nat) (r : Role) (c : string) : Message :=
  mkMessage id r (Text c).

(** A text of [n] tokens. *)
Definition filler (n : nat) : string :=
  string_of_list_ascii (repeat "a"%char n).

(** [createMessages] of the service's test suite. *)
Definition createMessages (count : nat) : list Message :=
  map (fun i =>
         turn i (if Nat.even i then user else assistant)
              ("Message " ++ JS.string_of_nat i
               ++ ": This is a test message with some content to make it meaningful")%string)
      (seq 0 count).

(** Two turns, the first long and the second short. *)
Definition question : Message :=
  turn 0 user "Please summarise the build log for me.".
Definition ok : Message := turn 1 assistant "ok".

(** A short user turn followed by a long assistant turn. *)
Definition hi : Message := turn 0 user "hi".
Definition report : Message :=
  turn 1 assistant
    ("The build finished after twelve minutes. All unit tests passed, "
     ++ "the integration suite was skipped because the database container "
     ++ "did not start, and the package was uploaded to the staging "
     ++ "registry under the tag nightly.")%string.

(** Four turns of 29, 72, 72 and 72 tokens; the first is the user's. *)
Definition four_turns : list Message :=
  [turn 0 user (filler 29); turn 1 assistant (filler 72);
   turn 2 assistant (filler 72); turn 3 assistant (filler 72)].

(** The same two turns, the short one first. *)
Definition ok_first : Message := turn 0 assistant "ok".
Definition question_last : Message :=
  turn 1 user "Please summarise the build log for me.".

(** One turn of ten tokens. *)
Definition lone : Message := turn 0 user "0123456789".

End Sample.

(** ** The message store's compression service

    Source: [ContextCompressionService] of packages/bytebot-agent-cc
    (context-compression.service.ts).  It works on stored messages, whose
    content is an array of content blocks.  The record type of a stored
    message (Prisma's [Message]) is declared outside the repository's
    sources at hand; its fields are the ones [createSummaryMessage] fills.
    Dates are clock readings in milliseconds, and the three readings that
    [createSummaryMessage] makes are passed to it. *)

Module CC.

Section MessageStore.

Variable json : Type.
Variable JSON_stringify : json -> string.

Record Message := mkMessage {
  id : string;
  createdAt : nat;
  updatedAt : nat;
  taskId : string;
  summaryId : option string;
  userId : option string;
  role : Role;
  content : list (ContentBlock json);
  isCompressed : option bool;
  originalSize : option nat;
}.

Definition MAX_MESSAGES_TO_KEEP : nat := 50.
Definition MAX_CONTEXT_SIZE : nat := 150 * 1000.

Definition isImportantMessage (message : Message) : bool :=
  if Role_eqb (role message) user then true
  else
    let hasError :=
      existsb (fun block =>
                 match block with
                 | text_block t =>
                     let text := JS.toLowerCase t in
                     JS.str_includes text "error"
                     || JS.str_includes text "failed"
                     || JS.str_includes text "exception"
                 | _ => false
                 end) (content message) in
    if hasError then true
    else
      existsb (fun block =>
                 match block with
                 | tool_use _ _ _ | tool_result _ _ => true
                 | _ => false
                 end) (content message).

(** The three clock readings of [createSummaryMessage]: for the [id], for
    [createdAt] and for [updatedAt]. *)
Record Clock := mkClock { id_now : nat; created_now : nat; updated_now : nat }.

Definition createSummaryMessage (clock : Clock) (messages : list Message)
  : Message :=
  let userMessages := filter (fun m => Role_eqb (role m) user) messages in
  let assistantMessages :=
    filter (fun m => Role_eqb (role m) assistant) messages in
  let summaryText :=
    ("[COMPRESSED CONTEXT SUMMARY]" ++ JS.nl
     ++ "Previous conversation included:" ++ JS.nl
     ++ "- " ++ JS.string_of_nat (length userMessages) ++ " user messages"
     ++ JS.nl
     ++ "- " ++ JS.string_of_nat (length assistantMessages)
     ++ " assistant responses" ++ JS.nl
     ++ "- Key actions taken: Various tool uses and responses" ++ JS.nl
     ++ "- Context has been compressed to manage token limits" ++ JS.nl
     ++ JS.nl
     ++ "Most recent user requests and assistant actions have been preserved."
     ++ JS.nl ++ "[END SUMMARY]")%string in
  {| id := ("summary-" ++ JS.string_of_nat (id_now clock))%string;
     createdAt := created_now clock;
     updatedAt := updated_now clock;
     taskId := match messages with
               | first :: _ => taskId first
               | [] => EmptyString
               end;
     summaryId := None;
     userId := None;
     role := user;
     content := [text_block summaryText];
     isCompressed := Some true;
     originalSize := Some (length messages) |}.

Definition default_preserveRecent : nat := 10.

Definition compressMessages (clock : Clock) (messages : list Message)
           (preserveRecent : nat) : list Message :=
  if length messages <=? MAX_MESSAGES_TO_KEEP then messages
  else
    let recentMessages := JS.slice_from messages (- Z.of_nat preserveRecent) in
    let oldMessages := JS.slice messages 0 (- Z.of_nat preserveRecent) in
    let importantOldMessages := filter isImportantMessage oldMessages in
    let summary := createSummaryMessage clock oldMessages in
    summary :: JS.slice_from importantOldMessages (-5) ++ recentMessages.

Definition blockSize (block : ContentBlock json) : nat :=
  match block with
  | text_block text => String.length text
  | tool_use _ _ input => String.length (JSON_stringify input)
  | tool_result _ c =>
      let resultContent := match c with
                           | ResultText s => s
                           | ResultData d => JSON_stringify d
                           end in
      String.length resultContent
  | other_block _ _ => 0
  end.

Definition estimateMessageSize (message : Message) : nat :=
  let size :=
    fold_left (fun size block => size + blockSize block) (content message) 0 in
  Z.to_nat (JS.ceil (JS.of_nat size / 4)%Q).

(** The loop of [shouldCompress], which returns as soon as the running
    total exceeds the limit. *)
Fixpoint size_exceeds (messages : list Message) (totalSize : nat) : bool :=
  match messages with
  | [] => false
  | message :: rest =>
      let totalSize := totalSize + estimateMessageSize message in
      if MAX_CONTEXT_SIZE <? totalSize then true
      else size_exceeds rest totalSize
  end.

Definition shouldCompress (messages : list Message) : bool :=
  if MAX_MESSAGES_TO_KEEP <? length messages then true
  else size_exceeds messages 0.

End MessageStore.

End CC.

(** Stored messages for the closed instances. *)
Module SampleCC.

Definition stored (n : nat) (r : Role) (t : string) : CC.Message Sample.json :=
  CC.mkMessage (JS.string_of_nat n) 0 0 "task-1" None None r
               [text_block t] None None.

(** Sixty stored messages: users at the even places, and a failing tool
    report every tenth place. *)
Definition sixty : list (CC.Message Sample.json) :=
  map (fun i =>
         stored i (if Nat.even i then user else assistant)
                (if i mod 10 =? 9 then "The command failed"%string
                 else "Message"%string))
      (seq 0 60).

Definition clock : CC.Clock := CC.mkClock 1700 1701 1702.

End SampleCC.

(** * Properties *)

Unset Implicit Arguments.

(** ** Numbers and arrays *)

Lemma of_nat_le (n m : nat) : n <= m -> (JS.of_nat n <= JS.of_nat m)%Q.
Proof.
  intros H. unfold JS.of_nat. rewrite <- Zle_Qle. lia.
Qed.

Lemma le_true_iff (a b : JS.number) : JS.le a b = true <-> (a <= b)%Q.
Proof. unfold JS.le. apply Qle_bool_iff. Qed.

Lemma le_false_iff (a b : JS.number) : JS.le a b = false <-> (b < a)%Q.
Proof.
  unfold JS.le. split; intros H.
  - apply Qnot_le_lt. intros Hle. apply Qle_bool_iff in Hle. congruence.
  - destruct (Qle_bool a b) eqn:E; [|reflexivity].
    apply Qle_bool_iff in E. exfalso. apply (Qlt_not_le _ _ H E).
Qed.

Lemma gt_negb_le (a b : JS.number) : JS.gt a b = negb (JS.le a b).
Proof. reflexivity. Qed.

Lemma fits_fewer (n m : nat) (T : JS.number) :
  n <= m -> JS.le (JS.of_nat m) T = true -> JS.le (JS.of_nat n) T = true.
Proof.
  intros Hnm H. apply le_true_iff. apply le_true_iff in H.
  eapply Qle_trans; [apply of_nat_le; eassumption | assumption].
Qed.

Lemma fits_larger_budget (x T' T : JS.number) :
  (T' <= T)%Q -> JS.le x T' = true -> JS.le x T = true.
Proof.
  intros HT H. apply le_true_iff. apply le_true_iff in H.
  eapply Qle_trans; eassumption.
Qed.

Lemma fold_left_add_shift {A} (f : A -> nat) (l : list A) (n : nat) :
  fold_left (fun acc x => acc + f x) l n =
  n + fold_left (fun acc x => acc + f x) l 0.
Proof.
  revert n. induction l as [|x l IH]; intros n; simpl.
  - lia.
  - rewrite IH. rewrite (IH (f x)). lia.
Qed.

Lemma skipn_last_part {A} (l : list A) (p : nat) :
  0 < p -> p < length l ->
  JS.slice_from l (- Z.of_nat p) = skipn (length l - p) l.
Proof.
  intros Hp Hl. unfold JS.slice_from, JS.clamp.
  destruct (Z.ltb_spec (- Z.of_nat p) 0); [|lia].
  f_equal. lia.
Qed.

Lemma slice_from_neg_length {A} (l : list A) (p : nat) :
  length (JS.slice_from l (- Z.of_nat p)) =
  match p with 0 => length l | _ => Nat.min p (length l) end.
Proof.
  unfold JS.slice_from, JS.clamp. rewrite length_skipn.
  destruct p as [|p].
  - simpl. rewrite Z.min_l by lia. simpl. lia.
  - destruct (Z.ltb_spec (- Z.of_nat (S p)) 0); lia.
Qed.

Lemma slice_from_zero {A} (l : list A) : JS.slice_from l (- Z.of_nat 0) = l.
Proof.
  unfold JS.slice_from, JS.clamp. simpl. rewrite Z.min_l by lia. reflexivity.
Qed.

(** [arr.sort] rearranges, [new Set] has no repetition. *)
Lemma insert_permutation {A} (cmp : A -> A -> JS.number) (x : A) (l : list A) :
  Permutation (JS.insert cmp x l) (x :: l).
Proof.
  induction l as [|y l IH]; simpl; [reflexivity|].
  destruct (JS.gt (cmp x y) 0%Q); [|reflexivity].
  rewrite IH. apply perm_swap.
Qed.

Lemma sort_permutation {A} (cmp : A -> A -> JS.number) (l : list A) :
  Permutation (JS.sort cmp l) l.
Proof.
  induction l as [|x l IH]; simpl; [reflexivity|].
  rewrite insert_permutation. apply perm_skip. exact IH.
Qed.

Lemma set_add_In (x y : nat) (seen : list nat) :
  In y (JS.set_add x seen) <-> y = x \/ In y seen.
Proof.
  induction seen as [|z seen IH]; simpl.
  - intuition congruence.
  - destruct (Nat.eqb_spec z x) as [->|Hneq]; simpl.
    + intuition congruence.
    + rewrite IH. intuition congruence.
Qed.

Lemma set_add_NoDup (x : nat) (seen : list nat) :
  NoDup seen -> NoDup (JS.set_add x seen).
Proof.
  induction seen as [|z seen IH]; intros Hnd; simpl.
  - constructor; [intros [] | constructor].
  - destruct (Nat.eqb_spec z x) as [->|Hneq]; [assumption|].
    inversion Hnd as [|? ? Hnotin Hnd']; subst.
    constructor; [|apply IH; assumption].
    rewrite set_add_In. intros [->|Hin]; [congruence | contradiction].
Qed.

Lemma set_of_NoDup (l : list nat) : NoDup (JS.set_of l).
Proof.
  unfold JS.set_of.
  assert (forall seen, NoDup seen ->
            NoDup (fold_left (fun seen x => JS.set_add x seen) l seen)) as H.
  { induction l as [|x l IH]; intros seen Hs; simpl; [assumption|].
    apply IH, set_add_NoDup, Hs. }
  apply H. constructor.
Qed.

Lemma map_snd_combine_seq {A} (l : list A) (k : nat) :
  map snd (combine (seq k (length l)) l) = l.
Proof.
  revert k. induction l as [|x l IH]; intros k; simpl; [reflexivity|].
  f_equal. apply IH.
Qed.

Lemma NoDup_insert_middle {A} (x : A) (l1 l2 : list A) :
  NoDup (l1 ++ l2) -> ~ In x (l1 ++ l2) -> NoDup (l1 ++ x :: l2).
Proof.
  intros Hnd Hx.
  apply (Permutation_NoDup (Permutation_middle l1 l2 x)).
  constructor; assumption.
Qed.

Section Properties.

Variable json : Type.
Variable JSON_stringify : json -> string.
Variable token : Type.
Variable encode : string -> list token.
Variable JSON_stringify_blocks : list (ContentBlock json) -> string.

Local Abbreviation Message := (MessageParam json).
Local Abbreviation tokens_of := (messageTokens JSON_stringify encode).
Local Abbreviation count := (countTokens JSON_stringify encode).
Local Abbreviation truncateCtx := (truncateContext JSON_stringify encode).
Local Abbreviation unshift := (unshift_while_fits JSON_stringify encode).

(** *** The token estimator *)

Lemma countTokens_cons (m : Message) (l : list Message) :
  count (m :: l) = tokens_of m + count l.
Proof.
  unfold countTokens. simpl. apply fold_left_add_shift.
Qed.

Lemma countTokens_app (a b : list Message) :
  count (a ++ b) = count a + count b.
Proof.
  induction a as [|m a IH]; [reflexivity|].
  simpl app. rewrite !countTokens_cons, IH. lia.
Qed.

Lemma countTokens_one (m : Message) : count [m] = tokens_of m.
Proof. rewrite countTokens_cons. unfold countTokens. simpl. lia. Qed.

(** C5.  The token estimator is additive over concatenation and its
    result is a non-negative integer. *)
Theorem countTokens_additive_nonneg (a b : list Message) :
  count (a ++ b) = count a + count b /\ (0 <= Z.of_nat (count a))%Z.
Proof.
  split; [apply countTokens_app | lia].
Qed.

(** *** The orchestrator's fast path and the overflow test *)

(** C4.  When the transcript already fits
    [min(strategy.maxTokens, modelContextWindow * 0.75)], [compressContext]
    returns the transcript itself with ratio 1 and equal token counts,
    whatever the four strategy methods are: none of them is run. *)
Theorem compressContext_noop (this : Strategies json) (msgs : list Message)
        (strat : CompressionStrategy)
        (modelContextWindow : option JS.number) :
  (JS.of_nat (count msgs)
   <= JS.min (maxTokens strat)
             (window_or_default modelContextWindow * (75 # 100)))%Q ->
  compressContextWith JSON_stringify encode this msgs strat
                      modelContextWindow
  = Some (mkCompressed msgs None (JS.Finite 1) (count msgs) (count msgs)
                       strat).
Proof.
  intros Hfit. unfold compressContextWith.
  apply le_true_iff in Hfit. unfold COMPRESSION_THRESHOLD.
  rewrite Hfit. reflexivity.
Qed.

(** *** truncateContext *)

Lemma truncateContext_body (msgs : list Message) (T : JS.number) (p : nat) :
  truncateCtx msgs T p =
  if length msgs <=? p then msgs
  else
    let recentMessages := JS.slice_from msgs (- Z.of_nat p) in
    let currentTokens := count recentMessages in
    if JS.gt (JS.of_nat currentTokens) T
    then truncateCtx recentMessages T (Nat.max 1 (p - 1))
    else unshift (rev (firstn (length msgs - p) msgs)) T currentTokens
                 recentMessages.
Proof.
  simp truncateContext.
  generalize (inspect (length msgs <=? p)).
  intros [[] Hb]; simp truncateContext; rewrite Hb; reflexivity.
Qed.

Lemma truncateContext_short (msgs : list Message) (T : JS.number) (p : nat) :
  length msgs <= p -> truncateCtx msgs T p = msgs.
Proof.
  intros H. rewrite truncateContext_body.
  apply Nat.leb_le in H. rewrite H. reflexivity.
Qed.

(** C9.  A transcript of at most [preserveRecent] turns is returned as it
    is, for every budget. *)
Theorem truncateContext_keeps_short_transcript
        (msgs : list Message) (targetTokens : JS.number) (p : nat) :
  length msgs <= p -> truncateCtx msgs targetTokens p = msgs.
Proof.
  apply truncateContext_short.
Qed.

(** The recursion scheme of [truncateContext] for a fixed budget: a short
transcript is returned, an oversized recency window is truncated again, a
fitting one is extended backwards. *)
Lemma truncateContext_cases (T : JS.number)
      (P : list Message -> nat -> list Message -> Prop) :
  (forall msgs p, length msgs <= p -> P msgs p msgs) ->
  (forall msgs p,
      p < length msgs ->
      let recent := JS.slice_from msgs (- Z.of_nat p) in
      JS.le (JS.of_nat (count recent)) T = false ->
      P recent (Nat.max 1 (p - 1)) (truncateCtx recent T (Nat.max 1 (p - 1))) ->
      P msgs p (truncateCtx recent T (Nat.max 1 (p - 1)))) ->
  (forall msgs p,
      p < length msgs ->
      let recent := JS.slice_from msgs (- Z.of_nat p) in
      JS.le (JS.of_nat (count recent)) T = true ->
      P msgs p (unshift (rev (firstn (length msgs - p) msgs)) T
                        (count recent) recent)) ->
  forall msgs p, P msgs p (truncateCtx msgs T p).
Proof.
  intros Hshort Hagain Hfill msgs p.
  remember (2 * length msgs + match p with 0 => 1 | _ => 0 end) as n eqn:Hn.
  revert msgs p Hn.
  induction n as [n IH] using lt_wf_ind. intros msgs p Hn.
  rewrite truncateContext_body.
  destruct (Nat.leb_spec (length msgs) p) as [Hle|Hgt].
  - apply Hshort. assumption.
  - cbv zeta. rewrite gt_negb_le.
    destruct (JS.le (JS.of_nat (count (JS.slice_from msgs (- Z.of_nat p)))) T)
      eqn:Hfit; simpl negb; cbv iota.
    + apply Hfill; assumption.
    + apply Hagain; try assumption.
      eapply IH; [|reflexivity]. subst n.
      pose proof (slice_from_neg_length msgs p) as HL.
      destruct (Nat.max 1 (p - 1)) as [|q] eqn:Emax; [lia|].
      destruct p as [|p]; lia.
Qed.

(** The recency window is a non-empty suffix of the transcript. *)
Lemma recent_suffix (msgs : list Message) (p : nat) :
  p < length msgs ->
  exists older, msgs = older ++ JS.slice_from msgs (- Z.of_nat p)
                /\ JS.slice_from msgs (- Z.of_nat p) <> [].
Proof.
  intros Hp. destruct p as [|p].
  - exists []. rewrite slice_from_zero. split; [reflexivity|].
    destruct msgs; [simpl in Hp; lia | discriminate].
  - rewrite skipn_last_part by lia.
    exists (firstn (length msgs - S p) msgs). split.
    + symmetry. apply firstn_skipn.
    + intros E. apply (f_equal (@length _)) in E.
      rewrite length_skipn in E. simpl in E. lia.
Qed.

Lemma suffix_keeps_last {A} (pre suf older : list A) (m : A) :
  pre ++ suf = older ++ [m] -> suf <> [] -> exists suf', suf = suf' ++ [m].
Proof.
  intros E Hne.
  destruct (exists_last Hne) as [suf' [x Hs]]. subst suf.
  rewrite app_assoc in E. apply app_inj_tail in E. destruct E as [_ ->].
  exists suf'. reflexivity.
Qed.

Lemma countTokens_rev (l : list Message) : count (rev l) = count l.
Proof.
  induction l as [|m l IH]; [reflexivity|].
  simpl rev. rewrite countTokens_app, countTokens_one, countTokens_cons. lia.
Qed.

(** The backward loop. *)
Lemma unshift_extends (older : list Message) T cur res :
  exists kept, unshift older T cur res = kept ++ res.
Proof.
  revert cur res. induction older as [|m older IH]; intros cur res; simpl.
  - exists []. reflexivity.
  - destruct (JS.le _ T).
    + destruct (IH (cur + count [m]) (m :: res)) as [kept ->].
      exists (kept ++ [m]). rewrite <- app_assoc. reflexivity.
    + exists []. reflexivity.
Qed.

Lemma unshift_within_budget (older : list Message) T cur res :
  cur = count res ->
  JS.le (JS.of_nat cur) T = true ->
  JS.le (JS.of_nat (count (unshift older T cur res))) T = true.
Proof.
  revert cur res. induction older as [|m older IH]; intros cur res Hc Hfit;
    simpl.
  - subst cur. assumption.
  - destruct (JS.le (JS.of_nat (cur + count [m])) T) eqn:E.
    + apply IH; [|assumption].
      rewrite countTokens_one, countTokens_cons. lia.
    + subst cur. assumption.
Qed.

Lemma unshift_count_bounds (older : list Message) T cur res :
  cur = count res ->
  count res <= count (unshift older T cur res)
  /\ count (unshift older T cur res) <= count older + count res.
Proof.
  revert cur res. induction older as [|m older IH]; intros cur res Hc; simpl.
  - lia.
  - rewrite (countTokens_cons m older).
    destruct (JS.le (JS.of_nat (cur + count [m])) T).
    + destruct (IH (cur + count [m]) (m :: res)) as [H1 H2].
      * rewrite countTokens_one, countTokens_cons. lia.
      * rewrite (countTokens_cons m res) in H1, H2. lia.
    + lia.
Qed.

Lemma unshift_budget_monotone (older : list Message) T' T cur res :
  cur = count res -> (T' <= T)%Q ->
  count (unshift older T' cur res) <= count (unshift older T cur res).
Proof.
  revert cur res. induction older as [|m older IH]; intros cur res Hc HT;
    simpl.
  - lia.
  - destruct (JS.le (JS.of_nat (cur + count [m])) T') eqn:E'.
    + rewrite (fits_larger_budget _ _ _ HT E').
      apply IH; [|assumption].
      rewrite countTokens_one, countTokens_cons. lia.
    + destruct (JS.le (JS.of_nat (cur + count [m])) T); [|lia].
      destruct (unshift_count_bounds older T (cur + count [m]) (m :: res))
        as [H1 _].
      * rewrite countTokens_one, countTokens_cons. lia.
      * rewrite (countTokens_cons m res) in H1. lia.
Qed.

(** With a recency window of at least one turn the output never holds more
tokens than the input. *)
Lemma truncateContext_count_le (msgs : list Message) T p :
  1 <= p -> count (truncateCtx msgs T p) <= count msgs.
Proof.
  apply (truncateContext_cases T
           (fun msgs p out => 1 <= p -> count out <= count msgs));
    clear msgs p.
  - intros; lia.
  - intros msgs p Hp recent _ IH H1.
    destruct (recent_suffix msgs p Hp) as [older [E _]]. fold recent in E.
    apply (f_equal count) in E. rewrite countTokens_app in E.
    assert (1 <= Nat.max 1 (p - 1)) as Hp' by lia.
    specialize (IH Hp'). lia.
  - intros msgs p Hp recent _ H1.
    destruct (unshift_count_bounds (rev (firstn (length msgs - p) msgs)) T
                                     (count recent) recent eq_refl) as [_ H2].
    rewrite countTokens_rev in H2.
    subst recent. rewrite skipn_last_part in * by lia.
    rewrite <- countTokens_app, firstn_skipn in H2. assumption.
Qed.

(** A smaller budget never makes [truncateContext] return more tokens. *)
Lemma truncateContext_monotone
      (msgs : list Message) (T' T : JS.number) (p : nat) :
  (T' <= T)%Q ->
  count (truncateCtx msgs T' p) <= count (truncateCtx msgs T p).
Proof.
  intros HT.
  apply (truncateContext_cases T'
           (fun msgs p out => count out <= count (truncateCtx msgs T p)));
    clear msgs p.
  - intros msgs p Hshort. rewrite truncateContext_short by assumption. lia.
  - intros msgs p Hp recent Hover IH.
    rewrite (truncateContext_body msgs T p).
    destruct (Nat.leb_spec (length msgs) p) as [Hle|_]; [lia|].
    cbv zeta. fold recent. rewrite gt_negb_le.
    destruct (JS.le (JS.of_nat (count recent)) T) eqn:Hfit; simpl negb;
      cbv iota.
    + destruct (unshift_count_bounds (rev (firstn (length msgs - p) msgs)) T
                                       (count recent) recent eq_refl)
        as [H1 _].
      assert (count (truncateCtx recent T' (Nat.max 1 (p - 1)))
              <= count recent) by (apply truncateContext_count_le; lia).
      lia.
    + exact IH.
  - intros msgs p Hp recent Hfit'.
    rewrite (truncateContext_body msgs T p).
    destruct (Nat.leb_spec (length msgs) p) as [Hle|_]; [lia|].
    cbv zeta. fold recent. rewrite gt_negb_le.
    rewrite (fits_larger_budget _ _ _ HT Hfit'). simpl negb. cbv iota.
    apply unshift_budget_monotone; [reflexivity | assumption].
Qed.

(** Called over budget, [truncateContext] returns no more tokens than it
was given, whatever [preserveRecent] is. *)
Lemma truncateContext_count_le_over (msgs : list Message) T p :
  JS.le (JS.of_nat (count msgs)) T = false ->
  count (truncateCtx msgs T p) <= count msgs.
Proof.
  intros Hover. destruct p as [|p].
  - rewrite truncateContext_body.
    destruct (length msgs <=? 0); [lia|].
    cbv zeta. rewrite slice_from_zero, gt_negb_le, Hover. simpl negb.
    cbv iota. apply truncateContext_count_le. simpl. lia.
  - apply truncateContext_count_le. lia.
Qed.

(** For the Truncate strategy a smaller budget never gives an output with
more tokens: this holds of [truncateContext] itself and of
[compressContext] run with a [truncate] descriptor, which always
returns. *)
Lemma truncate_budget_monotone
        (msgs : list Message) (lo hi : JS.number) (p : nat)
        (pr : option nat) (pi : option bool) (w : option JS.number)
        (fuel : nat) :
  (lo <= hi)%Q ->
  count (truncateCtx msgs lo p) <= count (truncateCtx msgs hi p)
  /\ exists r_lo r_hi,
      compressContext JSON_stringify encode JSON_stringify_blocks fuel msgs
                      (mkStrategy truncate lo pr pi) w = Some r_lo
      /\ compressContext JSON_stringify encode JSON_stringify_blocks fuel msgs
                         (mkStrategy truncate hi pr pi) w = Some r_hi
      /\ compressedTokenCount r_lo <= compressedTokenCount r_hi.
Proof.
  intros Hle. split; [apply truncateContext_monotone; exact Hle|].
  unfold compressContext, compressContextWith, COMPRESSION_THRESHOLD.
  cbv zeta. simpl maxTokens. simpl type. simpl preserveRecent.
  simpl run_truncate.
  set (cap := (window_or_default w * (75 # 100))%Q).
  set (k := match pr with Some p0 => p0 | None => default_preserveRecent end).
  assert (JS.min lo cap <= JS.min hi cap)%Q as Hmin
      by (apply Q.min_le_compat_r; exact Hle).
  destruct (JS.le (JS.of_nat (count msgs)) (JS.min lo cap)) eqn:Elo.
  - rewrite (fits_larger_budget _ _ _ Hmin Elo).
    eexists; eexists. split; [reflexivity|]. split; [reflexivity|].
    simpl. lia.
  - destruct (JS.le (JS.of_nat (count msgs)) (JS.min hi cap)) eqn:Ehi.
    + eexists; eexists. split; [reflexivity|]. split; [reflexivity|].
      simpl. apply truncateContext_count_le_over. exact Elo.
    + eexists; eexists. split; [reflexivity|]. split; [reflexivity|].
      simpl. apply truncateContext_monotone. exact Hmin.
Qed.

(** C1, as amended.  On a transcript of more than [preserveRecent] turns
the Truncate strategy returns a non-empty output; its token count is within
the budget when the most recent turn fits the budget; when the most recent
turn alone exceeds the budget the output is exactly that turn. *)
Theorem truncateContext_budget
        (older : list Message) (m : Message) (T : JS.number) (p : nat) :
  p < length (older ++ [m]) ->
  truncateCtx (older ++ [m]) T p <> []
  /\ ((JS.of_nat (count [m]) <= T)%Q ->
      (JS.of_nat (count (truncateCtx (older ++ [m]) T p)) <= T)%Q)
  /\ ((T < JS.of_nat (count [m]))%Q -> truncateCtx (older ++ [m]) T p = [m]).
Proof.
  intros Hlen.
  pose (P := fun (msgs : list Message) (p : nat) (out : list Message) =>
               forall older, msgs = older ++ [m] -> p < length msgs ->
                 out <> []
                 /\ ((JS.of_nat (count [m]) <= T)%Q ->
                     (JS.of_nat (count out) <= T)%Q)
                 /\ ((T < JS.of_nat (count [m]))%Q -> out = [m])).
  enough (forall msgs p, P msgs p (truncateCtx msgs T p)) as H
      by exact (H (older ++ [m]) p older eq_refl Hlen).
  clear older p Hlen. apply truncateContext_cases; subst P; cbv beta.
  - intros msgs p Hshort older' _ Hp. lia.
  - intros msgs p Hp recent Hover IH older' E _.
    destruct (recent_suffix msgs p Hp) as [pre [Epre Hne]]. fold recent in Epre, Hne.
    rewrite E in Epre.
    destruct (suffix_keeps_last pre recent older' m (eq_sym Epre) Hne) as [suf' Hsuf].
    destruct (Nat.leb_spec (length recent) (Nat.max 1 (p - 1))) as [Hle|Hgt].
    + (* the window is down to the most recent turn *)
      rewrite truncateContext_short by assumption.
      assert (recent = [m]) as ->.
      { pose proof (slice_from_neg_length msgs p) as HL. fold recent in HL.
        assert (1 <= length recent) as Hpos
            by (rewrite Hsuf, length_app; simpl; lia).
        assert (length recent = 1) as H1
            by (destruct p as [|q]; cbv iota in HL; lia).
        rewrite Hsuf in H1 |- *. rewrite length_app in H1. simpl in H1.
        destruct suf'; [reflexivity | simpl in H1; lia]. }
      split; [discriminate|]. split; [|reflexivity].
      intros Hfit. exact Hfit.
    + apply (IH suf' Hsuf Hgt).
  - intros msgs p Hp recent Hfit older' E _.
    destruct (recent_suffix msgs p Hp) as [pre [Epre Hne]]. fold recent in Epre, Hne.
    rewrite E in Epre.
    destruct (suffix_keeps_last pre recent older' m (eq_sym Epre) Hne) as [suf' Hsuf].
    split; [|split].
    + destruct (unshift_extends (rev (firstn (length msgs - p) msgs)) T
                                (count recent) recent) as [kept ->].
      intros Hnil. apply app_eq_nil in Hnil. destruct Hnil as [_ Hnil].
      contradiction.
    + intros _. apply le_true_iff.
      apply unshift_within_budget; [reflexivity | assumption].
    + intros Hbig. exfalso.
      apply le_true_iff in Hfit.
      assert (JS.of_nat (count [m]) <= JS.of_nat (count recent))%Q as Hm.
      { apply of_nat_le. rewrite Hsuf, countTokens_app. lia. }
      apply (Qlt_not_le _ _ Hbig). eapply Qle_trans; eassumption.
Qed.

(** *** No turn twice: Sliding Window and Priority-Based *)

Local Abbreviation slidingWindow :=
  (slidingWindowCompress JSON_stringify encode JSON_stringify_blocks).
Local Abbreviation priorityBased :=
  (priorityBasedCompress JSON_stringify encode JSON_stringify_blocks).


Lemma distinct_turns_index (msgs : list Message) (i j : nat) (a b : Message) :
  distinct_turns msgs ->
  nth_error msgs i = Some a -> nth_error msgs j = Some b ->
  oid a = oid b -> i = j.
Proof.
  intros Hnd Hi Hj Hoid.
  apply (proj1 (NoDup_nth_error (map (@oid json) msgs)) Hnd).
  - rewrite length_map. apply nth_error_Some. congruence.
  - rewrite !nth_error_map, Hi, Hj. simpl. congruence.
Qed.

Lemma includes_false (l : list Message) (m : Message) :
  JS.includes (@same json) l m = false -> ~ In (oid m) (map (@oid json) l).
Proof.
  unfold JS.includes, same. intros H Hin.
  apply in_map_iff in Hin. destruct Hin as [y [Hy Hin]].
  assert (existsb (fun y => oid y =? oid m) l = true) as E.
  { apply existsb_exists. exists y. split; [assumption|].
    apply Nat.eqb_eq. assumption. }
  congruence.
Qed.

Lemma NoDup_push (l : list Message) (m : Message) :
  NoDup (map (@oid json) l) -> ~ In (oid m) (map (@oid json) l) ->
  NoDup (map (@oid json) (l ++ [m])).
Proof.
  intros Hnd Hm. rewrite map_app. simpl.
  apply NoDup_insert_middle; rewrite app_nil_r; assumption.
Qed.

Lemma push_important_distinct (msgs : list Message) (T : JS.number)
      (important : list nat) :
  distinct_turns msgs -> NoDup important ->
  distinct_turns (push_important JSON_stringify encode msgs T important).
Proof.
  intros Hmsgs. unfold push_important, distinct_turns.
  assert (forall idxs result,
             NoDup idxs -> NoDup (map (@oid json) result) ->
             (forall m, In m result ->
                        exists i, nth_error msgs i = Some m /\ ~ In i idxs) ->
             NoDup (map (@oid json)
                      (fold_left
                         (fun result idx =>
                            match nth_error msgs idx with
                            | Some m =>
                                if JS.le (JS.of_nat (count (result ++ [m])))
                                         (T * (3 # 10))%Q
                                then result ++ [m] else result
                            | None => result
                            end) idxs result))) as H.
  { induction idxs as [|idx idxs IH]; intros result Hidx Hres Hfrom; simpl.
    - assumption.
    - inversion Hidx as [|? ? Hnotin Hidx']; subst.
      assert (forall m, In m result ->
                exists i, nth_error msgs i = Some m /\ ~ In i idxs) as Hfrom'.
      { intros m Hm. destruct (Hfrom m Hm) as [i [Hi Hni]].
        exists i. split; [assumption|]. intros Hin. apply Hni. now right. }
      destruct (nth_error msgs idx) as [m|] eqn:Em; [|apply IH; assumption].
      destruct (JS.le _ _); [|apply IH; assumption].
      apply IH; [assumption| |].
      + apply NoDup_push; [assumption|].
        intros Hin. apply in_map_iff in Hin. destruct Hin as [m' [Hoid Hm']].
        destruct (Hfrom m' Hm') as [i [Hi Hni]].
        apply Hni. left.
        apply (distinct_turns_index msgs idx i m m' Hmsgs Em Hi). congruence.
      + intros m0 Hm0. apply in_app_or in Hm0. destruct Hm0 as [Hm0|[<-|[]]].
        * apply Hfrom'. assumption.
        * exists idx. split; assumption. }
  intros Himp. apply H; [assumption | constructor | intros m []].
Qed.

Lemma push_representatives_distinct (msgs : list Message) (T : JS.number)
      (windowSize : nat) (ends : list nat) (result : list Message) :
  distinct_turns result ->
  distinct_turns (push_representatives JSON_stringify encode
                    JSON_stringify_blocks msgs T windowSize ends result).
Proof.
  unfold distinct_turns. revert result.
  induction ends as [|i ends IH]; intros result Hres; simpl; [assumption|].
  destruct (selectRepresentative _ _ _ _) as [r|]; [|apply IH; assumption].
  destruct (JS.includes (@same json) result r) eqn:Einc; simpl negb; cbv iota;
    [apply IH; assumption|].
  destruct (JS.le _ T); [|assumption].
  apply IH. apply NoDup_push; [assumption|]. apply includes_false, Einc.
Qed.

Lemma sort_distinct (cmp : Message -> Message -> JS.number)
      (l : list Message) :
  distinct_turns l -> distinct_turns (JS.sort cmp l).
Proof.
  unfold distinct_turns. intros H.
  eapply Permutation_NoDup; [|exact H].
  apply Permutation_map. symmetry. apply sort_permutation.
Qed.

Lemma slidingWindowCompress_distinct (msgs : list Message) (T : JS.number) :
  distinct_turns msgs -> distinct_turns (slidingWindow msgs T).
Proof.
  intros Hmsgs. unfold slidingWindowCompress. cbv zeta.
  apply sort_distinct, push_representatives_distinct, push_important_distinct;
    [assumption|].
  unfold identifyImportantMessages. apply set_of_NoDup.
Qed.

(** [truncateMessage] hands back its argument or an object with the
identity it was given. *)
Lemma truncateMessage_identity (m t : Message) (maxT : JS.number) (id : nat) :
  truncateMessage JSON_stringify encode m maxT id = Some t ->
  t = m \/ oid t = id.
Proof.
  unfold truncateMessage. destruct (content m) as [c|bs].
  - destruct (JS.le _ maxT); intros [= <-]; [left | right]; reflexivity.
  - destruct (0 <? _); intros [= <-]. right. reflexivity.
Qed.

Lemma calculatePriorities_messages (msgs : list Message) :
  map (@message json)
      (calculatePriorities JSON_stringify encode JSON_stringify_blocks msgs)
  = msgs.
Proof.
  unfold calculatePriorities. rewrite map_map.
  transitivity (map snd (combine (seq 0 (length msgs)) msgs));
    [|apply map_snd_combine_seq].
  apply map_ext. intros [index m]. reflexivity.
Qed.

Lemma fresh_oid_above (msgs : list Message) :
  Forall (fun x => x < fresh_oid msgs) (map (@oid json) msgs).
Proof.
  unfold fresh_oid.
  pose proof (proj1 (list_max_le (map (@oid json) msgs)
                                 (list_max (map (@oid json) msgs)))
                    (Nat.le_refl _)) as H.
  eapply Forall_impl; [|exact H]. simpl. intros; lia.
Qed.

(** The selection loop keeps the identities distinct: a kept turn leaves
the pending list, a truncated copy gets the next unused identity. *)
Lemma priority_loop_distinct (T : JS.number) (items : list (MessagePriority json))
      (result : list Message) (cur next : nat) :
  NoDup (map (@oid json) result
         ++ map (fun it => oid (message it)) items) ->
  Forall (fun x => x < next)
         (map (@oid json) result ++ map (fun it => oid (message it)) items) ->
  distinct_turns
    (fst (fst (fold_left
                 (priority_step JSON_stringify encode T) items
                 (result, cur, next)))).
Proof.
  unfold distinct_turns.
  revert result cur next.
  induction items as [|item items IH]; intros result cur next Hnd Hlt.
  - simpl in *. rewrite app_nil_r in Hnd. assumption.
  - simpl map in Hnd, Hlt. simpl fold_left.
    assert (NoDup (map (@oid json) result
                   ++ map (fun it => oid (message it)) items)) as Hdrop
        by (eapply NoDup_remove_1; eassumption).
    assert (Forall (fun x => x < S next)
                   (map (@oid json) result
                    ++ map (fun it => oid (message it)) items)) as Hlt_drop.
    { apply Forall_app in Hlt. destruct Hlt as [H1 H2].
      inversion H2; subst. apply Forall_app. split.
      - eapply Forall_impl; [|exact H1]. simpl; intros; lia.
      - eapply Forall_impl; [|eassumption]. simpl; intros; lia. }
    assert (NoDup (map (@oid json) (result ++ [message item])
                   ++ map (fun it => oid (message it)) items)) as Hkeep
        by (rewrite map_app, <- app_assoc; exact Hnd).
    assert (forall n, next <= n ->
              Forall (fun x => x < n)
                     (map (@oid json) (result ++ [message item])
                      ++ map (fun it => oid (message it)) items)) as Hlt_keep.
    { intros n Hn. rewrite map_app, <- app_assoc.
      eapply Forall_impl; [|exact Hlt]. simpl; intros; lia. }
    destruct (priority_step JSON_stringify encode T (result, cur, next) item)
      as [[result' cur'] next'] eqn:Estep.
    unfold priority_step in Estep.
    destruct (JS.le (JS.of_nat (cur + tokenCount item)) T).
    { injection Estep as <- <- <-.
      apply IH; [exact Hkeep | apply Hlt_keep; lia]. }
    destruct (JS.lt (JS.of_nat cur) (T * (5 # 10))%Q).
    2:{ injection Estep as <- <- <-.
        apply IH; [exact Hdrop|].
        apply Forall_app in Hlt. destruct Hlt as [H1 H2].
        inversion H2; subst. apply Forall_app. split; assumption. }
    destruct (truncateMessage JSON_stringify encode (message item)
                              (T - JS.of_nat cur)%Q next) as [t|] eqn:Et.
    2:{ injection Estep as <- <- <-.
        apply IH; [exact Hdrop | exact Hlt_drop]. }
    injection Estep as <- <- <-.
    destruct (truncateMessage_identity _ _ _ _ Et) as [->|Hid].
    { apply IH; [exact Hkeep | apply Hlt_keep; lia]. }
    apply IH.
    + rewrite map_app, <- app_assoc. simpl. rewrite Hid.
      apply NoDup_insert_middle; [exact Hdrop|].
      intros Hin.
      apply Forall_app in Hlt. destruct Hlt as [H1 H2].
      inversion H2 as [|? ? _ H2']; subst.
      apply in_app_or in Hin. destruct Hin as [Hin|Hin].
      * rewrite Forall_forall in H1. specialize (H1 _ Hin). lia.
      * rewrite Forall_forall in H2'. specialize (H2' _ Hin). lia.
    + rewrite map_app, <- app_assoc. simpl. rewrite Hid.
      apply Forall_app in Hlt_drop. destruct Hlt_drop as [H1 H2].
      apply Forall_app. split; [exact H1|].
      constructor; [lia | exact H2].
Qed.

Lemma priorityBasedCompress_distinct (msgs : list Message) (T : JS.number) :
  distinct_turns msgs -> distinct_turns (priorityBased msgs T).
Proof.
  intros Hmsgs. unfold priorityBasedCompress. cbv zeta.
  set (sorted := JS.sort _ (calculatePriorities _ _ _ msgs)).
  assert (Permutation (map (fun it => oid (message it)) sorted)
                      (map (@oid json) msgs)) as Hperm.
  { rewrite <- (calculatePriorities_messages msgs) at 1.
    rewrite map_map. apply Permutation_map. apply sort_permutation. }
  pose proof (priority_loop_distinct T sorted [] 0 (fresh_oid msgs)) as H.
  simpl app in H.
  destruct (fold_left _ sorted _) as [[result cur] next].
  apply sort_distinct. apply H.
  - eapply Permutation_NoDup; [symmetry; exact Hperm | exact Hmsgs].
  - eapply Permutation_Forall; [symmetry; exact Hperm|].
    apply fresh_oid_above.
Qed.

(** C7, as amended.  On a transcript of pairwise distinct turn objects,
neither the Sliding Window nor the Priority-Based strategy returns the same
object twice, whatever the budget. *)
Theorem no_turn_twice (msgs : list Message) (targetTokens : JS.number) :
  distinct_turns msgs ->
  distinct_turns (slidingWindow msgs targetTokens)
  /\ distinct_turns (priorityBased msgs targetTokens).
Proof.
  intros Hmsgs. split.
  - apply slidingWindowCompress_distinct. assumption.
  - apply priorityBasedCompress_distinct. assumption.
Qed.

(** *** Chronological order: Truncate and Sliding Window *)

(** [truncateContext] returns a suffix of the transcript. *)
Lemma unshift_suffix (older_rev : list Message) T cur res :
  exists dropped kept,
    rev older_rev = dropped ++ kept
    /\ unshift older_rev T cur res = kept ++ res.
Proof.
  revert cur res. induction older_rev as [|m l IH]; intros cur res; simpl.
  - exists [], []. split; reflexivity.
  - destruct (JS.le _ T).
    + destruct (IH (cur + count [m]) (m :: res)) as [dropped [kept [E ->]]].
      exists dropped, (kept ++ [m]). rewrite E, <- !app_assoc.
      split; reflexivity.
    + exists (rev l ++ [m]), []. rewrite app_nil_r. split; reflexivity.
Qed.

Lemma truncateContext_suffix (msgs : list Message) T p :
  1 <= p -> exists dropped, msgs = dropped ++ truncateCtx msgs T p.
Proof.
  apply (truncateContext_cases T
           (fun msgs p out => 1 <= p -> exists dropped, msgs = dropped ++ out));
    clear msgs p.
  - intros msgs p _ _. exists []. reflexivity.
  - intros msgs p Hp recent _ IH H1.
    destruct (recent_suffix msgs p Hp) as [older [E _]]. fold recent in E.
    destruct IH as [dropped Hd]; [lia|].
    exists (older ++ dropped). rewrite <- app_assoc, <- Hd. exact E.
  - intros msgs p Hp recent _ H1.
    destruct (unshift_suffix (rev (firstn (length msgs - p) msgs)) T
                             (count recent) recent)
      as [dropped [kept [E ->]]].
    rewrite rev_involutive in E.
    exists dropped. rewrite app_assoc, <- E.
    subst recent. rewrite skipn_last_part by lia.
    symmetry. apply firstn_skipn.
Qed.

(** Positions in a transcript. *)
Local Abbreviation position msgs := (JS.indexOf (@same json) msgs).

Lemma indexOf_from_found (x : Message) (l : list Message) (i : Z) :
  (0 <= i)%Z ->
  JS.indexOf_from (@same json) x l i <> (-1)%Z ->
  exists y, nth_error l (Z.to_nat (JS.indexOf_from (@same json) x l i - i))
            = Some y
            /\ oid y = oid x
            /\ (i <= JS.indexOf_from (@same json) x l i)%Z.
Proof.
  revert i. induction l as [|y l IH]; intros i Hi H; simpl in *.
  - congruence.
  - destruct (same y x) eqn:E.
    + exists y. rewrite Z.sub_diag. simpl.
      repeat split; [apply Nat.eqb_eq; exact E | lia].
    + destruct (IH (i + 1)%Z) as [z [Hz [Hoid Hle]]]; [lia | exact H |].
      exists z. repeat split; [|exact Hoid | lia].
      replace (Z.to_nat (JS.indexOf_from (@same json) x l (i + 1) - i))
        with (S (Z.to_nat (JS.indexOf_from (@same json) x l (i + 1) - (i + 1))))
        by lia.
      simpl. exact Hz.
Qed.

Lemma indexOf_from_In (x : Message) (l : list Message) (i : Z) :
  (0 <= i)%Z -> In x l -> JS.indexOf_from (@same json) x l i <> (-1)%Z.
Proof.
  revert i. induction l as [|y l IH]; intros i Hi Hin; simpl in *;
    [contradiction|].
  destruct (same y x) eqn:E; [lia|].
  destruct Hin as [->|Hin].
  - unfold same in E. rewrite Nat.eqb_refl in E. discriminate.
  - apply IH; [lia | exact Hin].
Qed.

(** Two turns of the transcript found at the same position are the same
object. *)
Lemma position_injective (msgs : list Message) (a b : Message) :
  In a msgs -> In b msgs ->
  position msgs a = position msgs b -> oid a = oid b.
Proof.
  unfold JS.indexOf. intros Ha Hb E.
  destruct (indexOf_from_found a msgs 0 (Z.le_refl 0)
              (indexOf_from_In a msgs 0 (Z.le_refl 0) Ha))
    as [y [Hy [Hoa _]]].
  destruct (indexOf_from_found b msgs 0 (Z.le_refl 0)
              (indexOf_from_In b msgs 0 (Z.le_refl 0) Hb))
    as [z [Hz [Hob _]]].
  rewrite E in Hy. congruence.
Qed.

Lemma by_position_gt (msgs : list Message) (a b : Message) :
  JS.gt (by_position msgs a b) 0%Q = true <->
  (position msgs b < position msgs a)%Z.
Proof.
  unfold JS.gt, JS.lt, by_position. rewrite negb_true_iff.
  change (Qle_bool (inject_Z (position msgs a - position msgs b)) 0)
    with (JS.le (inject_Z (position msgs a - position msgs b)) 0%Q).
  rewrite le_false_iff.
  change 0%Q with (inject_Z 0). rewrite <- Zlt_Qlt. lia.
Qed.

Lemma insert_by_position_sorted (msgs : list Message) (x : Message)
      (l : list Message) :
  Sorted (fun a b => (position msgs a <= position msgs b)%Z) l ->
  Sorted (fun a b => (position msgs a <= position msgs b)%Z)
         (JS.insert (by_position msgs) x l).
Proof.
  induction l as [|y l IH]; intros Hs; simpl.
  - constructor; constructor.
  - destruct (JS.gt (by_position msgs x y) 0%Q) eqn:E.
    + apply by_position_gt in E.
      inversion Hs as [|? ? Hs' Hhd]; subst.
      constructor; [apply IH; exact Hs'|].
      destruct l as [|z l]; simpl.
      * constructor. lia.
      * destruct (JS.gt (by_position msgs x z) 0%Q); constructor.
        -- inversion Hhd; subst. assumption.
        -- lia.
    + assert (~ (position msgs y < position msgs x)%Z) as Hle.
      { intros H. apply by_position_gt in H. congruence. }
      constructor; [exact Hs|]. constructor. lia.
Qed.

Lemma sort_by_position_sorted (msgs l : list Message) :
  StronglySorted (fun a b => (position msgs a <= position msgs b)%Z)
                 (JS.sort (by_position msgs) l).
Proof.
  apply Sorted_StronglySorted.
  - intros a b c Hab Hbc. lia.
  - induction l as [|x l IH]; simpl; [constructor|].
    apply insert_by_position_sorted. exact IH.
Qed.

(** Sorting distinct turns of the transcript by position puts them at
strictly increasing positions. *)
Lemma sort_by_position_increasing (msgs l : list Message) :
  distinct_turns l -> Forall (fun m => In m msgs) l ->
  StronglySorted Z.lt (map (position msgs) (JS.sort (by_position msgs) l)).
Proof.
  intros Hd Hin.
  pose proof (sort_by_position_sorted msgs l) as Hs.
  apply (sort_distinct (by_position msgs)) in Hd.
  assert (Forall (fun m => In m msgs) (JS.sort (by_position msgs) l)) as Hin'
      by (eapply Permutation_Forall;
          [symmetry; apply sort_permutation | exact Hin]).
  clear Hin. unfold distinct_turns in Hd.
  induction Hs as [|a l' Hs IH Hall]; simpl; [constructor|].
  inversion Hd as [|? ? Hnotin Hd']; subst.
  inversion Hin' as [|? ? Ha Hin'']; subst.
  constructor; [apply IH; assumption|].
  rewrite Forall_map. rewrite Forall_forall in Hall |- *.
  intros b Hb. specialize (Hall b Hb).
  destruct (Z.eq_dec (position msgs a) (position msgs b)) as [E|E]; [|lia].
  exfalso. apply Hnotin.
  rewrite Forall_forall in Hin''.
  rewrite (position_injective msgs a b Ha (Hin'' b Hb) E).
  apply in_map. exact Hb.
Qed.

Lemma slice_incl {A} (l : list A) (start stop : Z) (x : A) :
  In x (JS.slice l start stop) -> In x l.
Proof.
  unfold JS.slice.
  set (k := Z.to_nat (JS.clamp (Z.of_nat (length l)) start)).
  set (n := Z.to_nat _). intros H.
  rewrite <- (firstn_skipn k l). apply in_or_app. right.
  rewrite <- (firstn_skipn n (skipn k l)). apply in_or_app. left. exact H.
Qed.

Lemma shortest_In (first : Message) (rest : list Message) :
  In (fold_left (fun shortest current =>
                   if count [current] <? count [shortest]
                   then current else shortest) rest first)
     (first :: rest).
Proof.
  revert first. induction rest as [|m rest IH]; intros first; simpl.
  - left. reflexivity.
  - destruct (count [m] <? count [first]).
    + right. apply IH.
    + destruct (IH first) as [H|H]; [left; exact H | right; right; exact H].
Qed.

Lemma selectRepresentative_In (window : list Message) (r : Message) :
  selectRepresentative JSON_stringify encode JSON_stringify_blocks window
  = Some r ->
  In r window.
Proof.
  unfold selectRepresentative, JS.find.
  destruct window as [|first rest]; [discriminate|].
  destruct (List.find _ (first :: rest)) as [u|] eqn:Eu.
  - intros [= <-]. apply (find_some _ _ Eu).
  - destruct (List.find (messageContainsError _) (first :: rest)) as [e|] eqn:Ee.
    + intros [= <-]. apply (find_some _ _ Ee).
    + intros [= <-]. apply shortest_In.
Qed.

Lemma push_important_incl (msgs : list Message) (T : JS.number)
      (important : list nat) :
  Forall (fun m => In m msgs)
         (push_important JSON_stringify encode msgs T important).
Proof.
  unfold push_important.
  assert (forall idxs result,
             Forall (fun m => In m msgs) result ->
             Forall (fun m => In m msgs)
                    (fold_left
                       (fun result idx =>
                          match nth_error msgs idx with
                          | Some m =>
                              if JS.le (JS.of_nat (count (result ++ [m])))
                                       (T * (3 # 10))%Q
                              then result ++ [m] else result
                          | None => result
                          end) idxs result)) as H.
  { induction idxs as [|idx idxs IH]; intros result Hres; simpl; [exact Hres|].
    apply IH.
    destruct (nth_error msgs idx) as [m|] eqn:Em; [|exact Hres].
    destruct (JS.le _ _); [|exact Hres].
    apply Forall_app. split; [exact Hres|].
    constructor; [|constructor]. eapply nth_error_In. exact Em. }
  apply H. constructor.
Qed.

Lemma push_representatives_incl (msgs : list Message) (T : JS.number)
      (windowSize : nat) (ends : list nat) (result : list Message) :
  Forall (fun m => In m msgs) result ->
  Forall (fun m => In m msgs)
         (push_representatives JSON_stringify encode JSON_stringify_blocks
            msgs T windowSize ends result).
Proof.
  revert result.
  induction ends as [|i ends IH]; intros result Hres; simpl; [exact Hres|].
  destruct (selectRepresentative _ _ _ _) as [r|] eqn:Er; [|apply IH; exact Hres].
  destruct (JS.includes (@same json) result r); simpl negb; cbv iota;
    [apply IH; exact Hres|].
  destruct (JS.le _ T); [|exact Hres].
  apply IH. apply Forall_app. split; [exact Hres|].
  constructor; [|constructor].
  apply selectRepresentative_In in Er. eapply slice_incl. exact Er.
Qed.

(** On distinct turns Sliding Window returns turns of the transcript at
strictly increasing positions. *)
Lemma slidingWindowCompress_keeps_order (msgs : list Message) (T : JS.number) :
  distinct_turns msgs ->
  Forall (fun m => In m msgs) (slidingWindow msgs T)
  /\ StronglySorted Z.lt (map (position msgs) (slidingWindow msgs T)).
Proof.
  intros Hd. unfold slidingWindowCompress. cbv zeta.
  match goal with
  | |- Forall _ (JS.sort _ ?r) /\ _ =>
      assert (Forall (fun m => In m msgs) r) as Hin
        by apply push_representatives_incl, push_important_incl
  end.
  split.
  - eapply Permutation_Forall; [symmetry; apply sort_permutation | exact Hin].
  - apply sort_by_position_increasing; [|exact Hin].
    apply push_representatives_distinct, push_important_distinct;
      [exact Hd|].
    unfold identifyImportantMessages. apply set_of_NoDup.
Qed.

(** *** Sliding Window on a single oversized turn *)

Lemma identifyImportantMessages_single (m : Message) :
  identifyImportantMessages JSON_stringify_blocks [m] = [0].
Proof.
  unfold identifyImportantMessages. simpl.
  destruct (Role_eqb (role m) user), (messageContainsError _ m); reflexivity.
Qed.

Lemma selectRepresentative_single (m : Message) :
  selectRepresentative JSON_stringify encode JSON_stringify_blocks [m] = Some m.
Proof.
  unfold selectRepresentative, JS.find. simpl.
  destruct (Role_eqb (role m) user); [reflexivity|].
  destruct (messageContainsError _ m); reflexivity.
Qed.

Lemma slidingWindowCompress_single_oversized (m : Message) (T : JS.number) :
  (0 < T)%Q -> (T < JS.of_nat (count [m]))%Q -> slidingWindow [m] T = [].
Proof.
  intros Hpos Hbig.
  assert (JS.le (JS.of_nat (count [m])) T = false) as Hover
      by (apply le_false_iff; assumption).
  assert (JS.le (JS.of_nat (count [m])) (T * (3 # 10))%Q = false) as Hover3.
  { apply le_false_iff. eapply Qle_lt_trans; [|exact Hbig]. lra. }
  unfold slidingWindowCompress. cbv zeta.
  rewrite identifyImportantMessages_single.
  unfold push_important. simpl fold_left. rewrite Hover3.
  change (Z.to_nat (JS.ceil (JS.of_nat (length [m]) * (3 # 10))%Q)) with 1.
  change (Nat.max 1 (Z.to_nat (JS.floor (JS.of_nat 1 * (5 # 10))%Q))) with 1.
  change (window_ends (length [m]) 1) with [0].
  unfold push_representatives.
  change (JS.slice [m] (Z.max 0 (Z.of_nat 0 - Z.of_nat 1)) (Z.of_nat 0 + 1))
    with [m].
  rewrite selectRepresentative_single. simpl.
  rewrite Hover. reflexivity.
Qed.

(** C10.  Whenever the tokenizer yields a token for some text, there are a
non-empty transcript and a positive budget on which the Sliding Window
strategy returns no turn at all. *)
Theorem slidingWindowCompress_may_return_nothing :
  (exists s, encode s <> []) ->
  exists (msgs : list Message) (targetTokens : JS.number),
    msgs <> [] /\ (0 < targetTokens)%Q /\ slidingWindow msgs targetTokens = [].
Proof.
  intros [s Hs].
  exists [mkMessage 0 user (Text s)], (1 # 2)%Q.
  split; [discriminate|]. split; [reflexivity|].
  apply slidingWindowCompress_single_oversized; [reflexivity|].
  rewrite countTokens_one. unfold messageTokens. simpl.
  destruct (encode s) as [|t ts]; [contradiction|].
  unfold JS.of_nat. simpl length.
  apply Qlt_le_trans with (y := 1%Q); [reflexivity|].
  change 1%Q with (inject_Z 1). rewrite <- Zle_Qle. lia.
Qed.

(** *** summarizeContext on fewer than five turns *)

Local Abbreviation summarizeStp :=
  (summarizeStep JSON_stringify encode JSON_stringify_blocks).
Local Abbreviation summarizeCtx :=
  (summarizeContext JSON_stringify encode JSON_stringify_blocks).
Local Abbreviation summarizeRet :=
  (summarize_returns JSON_stringify encode JSON_stringify_blocks).

(** With fewer than five turns [preserveCount] is 0: nothing is
summarized and every turn is preserved. *)
Lemma summarizeStep_short (msgs : list Message) (T : JS.number) :
  length msgs < 5 ->
  summarizeStp msgs T =
  let compressedMessages :=
    summaryMessage json (fresh_oid msgs)
                   (generateSummary JSON_stringify_blocks []) :: msgs in
  if JS.gt (JS.of_nat (count compressedMessages)) T
  then Recurse msgs
  else Return compressedMessages (generateSummary JSON_stringify_blocks []).
Proof.
  intros Hlen. unfold summarizeStep.
  assert (JS.floor (JS.of_nat (length msgs) * (2 # 10))%Q = 0%Z) as ->.
  { destruct msgs as [|a [|b [|c [|d [|e l]]]]]; try reflexivity.
    simpl in Hlen. lia. }
  cbv zeta. change (- 0)%Z with (- Z.of_nat 0)%Z.
  rewrite slice_from_zero.
  assert (JS.slice msgs 0 (- Z.of_nat 0) = []) as ->.
  { unfold JS.slice, JS.clamp. simpl. rewrite Z.min_l by lia. reflexivity. }
  reflexivity.
Qed.

(** An activation that calls itself on its own argument never returns. *)
Lemma summarizeContext_stuck (msgs : list Message) (T : JS.number) :
  summarizeStp msgs T = Recurse msgs ->
  (forall fuel, summarizeCtx fuel msgs T = None)
  /\ (forall r, ~ summarizeRet T msgs r).
Proof.
  intros Hstep. split.
  - induction fuel as [|fuel IH]; simpl; [reflexivity|].
    rewrite Hstep. exact IH.
  - intros r Hr. induction Hr as [msgs c su Hdone | msgs preserved r Hagain _ IH].
    + congruence.
    + rewrite Hstep in Hagain. injection Hagain as <-. apply IH. assumption.
Qed.

(** The fuel-bounded run and the relation agree. *)
Lemma summarizeContext_returns (msgs : list Message) (T : JS.number) r :
  summarizeRet T msgs r <-> exists fuel, summarizeCtx fuel msgs T = Some r.
Proof.
  split.
  - intros H. induction H as [msgs c su Hdone | msgs preserved r Hagain _ [fuel IH]].
    + exists 1. simpl. rewrite Hdone. reflexivity.
    + exists (S fuel). simpl. rewrite Hagain. exact IH.
  - intros [fuel H]. revert msgs H.
    induction fuel as [|fuel IH]; intros msgs H; simpl in H; [discriminate|].
    destruct (summarizeStp msgs T) as [c su|preserved] eqn:E.
    + injection H as <-. apply summarize_done. exact E.
    + eapply summarize_again; [exact E|]. apply IH. exact H.
Qed.

(** From five turns on, the preserved part is strictly shorter than the
transcript. *)
Lemma summarizeStep_shrinks (msgs preserved : list Message) (T : JS.number) :
  5 <= length msgs ->
  summarizeStp msgs T = Recurse preserved ->
  length preserved < length msgs.
Proof.
  intros Hlen. unfold summarizeStep. cbv zeta.
  destruct (JS.gt _ T); [|discriminate]. intros [= <-].
  unfold JS.slice_from, JS.clamp. rewrite length_skipn.
  unfold JS.floor, JS.of_nat, Qfloor. cbn [Qnum Qden Qmult inject_Z].
  match goal with
  | |- context [(?a / ?b)%Z] => set (k := (a / b)%Z)
  end.
  assert (1 <= k < Z.of_nat (length msgs))%Z as Hk.
  { subst k. split.
    - apply Z.div_le_lower_bound; lia.
    - apply Z.div_lt_upper_bound; lia. }
  clearbody k.
  destruct (Z.ltb_spec (- k) 0); lia.
Qed.

(** When the summarizer does not return, neither does the orchestrator. *)
Lemma compressContext_summarize_none (fuel : nat) (msgs : list Message)
      (strat : CompressionStrategy) (w : option JS.number) :
  type strat = summarize ->
  JS.le (JS.of_nat (count msgs))
        (JS.min (maxTokens strat) (window_or_default w * (75 # 100))%Q)
  = false ->
  summarizeCtx fuel msgs
               (JS.min (maxTokens strat) (window_or_default w * (75 # 100))%Q)
  = None ->
  compressContext JSON_stringify encode JSON_stringify_blocks fuel msgs strat w
  = None.
Proof.
  intros Htype Hover Hnone.
  unfold compressContext, compressContextWith, COMPRESSION_THRESHOLD.
  cbv zeta. rewrite Hover, Htype. simpl run_summarize.
  rewrite Hnone. reflexivity.
Qed.

(** *** summarizeContext: budget monotonicity of the runs that return *)

(** The budget enters an activation through one comparison only. *)
Lemma summarizeStep_budget (msgs : list Message) :
  exists c su preserved,
    forall T,
      summarizeStp msgs T
      = if JS.le (JS.of_nat (count c)) T then Return c su
        else Recurse preserved.
Proof.
  unfold summarizeStep. cbv zeta.
  set (k := (- JS.floor (JS.of_nat (length msgs) * (2 # 10))%Q)%Z).
  set (su := generateSummary JSON_stringify_blocks (JS.slice msgs 0 k)).
  exists (summaryMessage json (fresh_oid msgs) su :: JS.slice_from msgs k),
    su, (JS.slice_from msgs k).
  intros T. rewrite gt_negb_le.
  destruct (JS.le _ T); reflexivity.
Qed.

Lemma summarizeContext_fits (fuel : nat) (msgs out : list Message)
      (T : JS.number) (su : string) :
  summarizeCtx fuel msgs T = Some (out, su) ->
  JS.le (JS.of_nat (count out)) T = true.
Proof.
  revert msgs. induction fuel as [|fuel IH]; intros msgs; simpl;
    [discriminate|].
  destruct (summarizeStep_budget msgs) as [c [s0 [preserved Hstep]]].
  rewrite Hstep.
  destruct (JS.le (JS.of_nat (count c)) T) eqn:Hfit.
  - intros [= <- _]. exact Hfit.
  - apply IH.
Qed.

Lemma fits_below (a b : nat) (T : JS.number) :
  JS.le (JS.of_nat a) T = true -> JS.le (JS.of_nat b) T = false -> a < b.
Proof.
  intros Ha Hb. apply le_true_iff in Ha. apply le_false_iff in Hb.
  assert (JS.of_nat a < JS.of_nat b)%Q as H
      by (eapply Qle_lt_trans; eassumption).
  unfold JS.of_nat in H. rewrite <- Zlt_Qlt in H. lia.
Qed.

(** A run that returns under the lower budget returns under the higher
budget too, with the same fuel and at least as many tokens: the higher
budget stops at the same activation or at an earlier one, whose output did
not fit the lower budget. *)
Lemma summarizeContext_monotone (fuel : nat) (msgs out_lo : list Message)
      (lo hi : JS.number) (su_lo : string) :
  (lo <= hi)%Q ->
  summarizeCtx fuel msgs lo = Some (out_lo, su_lo) ->
  exists out_hi su_hi,
    summarizeCtx fuel msgs hi = Some (out_hi, su_hi)
    /\ count out_lo <= count out_hi.
Proof.
  intros Hle. revert msgs.
  induction fuel as [|fuel IH]; intros msgs; simpl; [discriminate|].
  destruct (summarizeStep_budget msgs) as [c [s0 [preserved Hstep]]].
  rewrite !Hstep.
  destruct (JS.le (JS.of_nat (count c)) lo) eqn:Elo.
  - rewrite (fits_larger_budget _ _ _ Hle Elo).
    intros [= <- <-]. exists c, s0. split; [reflexivity | lia].
  - destruct (JS.le (JS.of_nat (count c)) hi) eqn:Ehi.
    + intros Hrun. exists c, s0. split; [reflexivity|].
      apply summarizeContext_fits in Hrun.
      pose proof (fits_below _ _ _ Hrun Elo). lia.
    + apply IH.
Qed.

(** C8, as amended.  A smaller budget never gives an output with more
tokens for the Truncate strategy, and for the Summarize strategy whenever
its run under the smaller budget returns (the run under the larger budget
then returns too).  Both hold of the strategy methods and of
[compressContext] run with the descriptor of that type. *)
Theorem budget_monotone_truncate_summarize
        (msgs : list Message) (lo hi : JS.number) (p : nat)
        (pr : option nat) (pi : option bool) (w : option JS.number)
        (fuel : nat) :
  (lo <= hi)%Q ->
  (count (truncateCtx msgs lo p) <= count (truncateCtx msgs hi p)
   /\ exists r_lo r_hi,
       compressContext JSON_stringify encode JSON_stringify_blocks fuel msgs
                       (mkStrategy truncate lo pr pi) w = Some r_lo
       /\ compressContext JSON_stringify encode JSON_stringify_blocks fuel msgs
                          (mkStrategy truncate hi pr pi) w = Some r_hi
       /\ compressedTokenCount r_lo <= compressedTokenCount r_hi)
  /\ (forall r_lo,
         summarizeRet lo msgs r_lo ->
         exists r_hi,
           summarizeRet hi msgs r_hi /\ count (fst r_lo) <= count (fst r_hi))
  /\ (forall r_lo,
         compressContext JSON_stringify encode JSON_stringify_blocks fuel msgs
                         (mkStrategy summarize lo pr pi) w = Some r_lo ->
         exists r_hi,
           compressContext JSON_stringify encode JSON_stringify_blocks fuel
                           msgs (mkStrategy summarize hi pr pi) w = Some r_hi
           /\ compressedTokenCount r_lo <= compressedTokenCount r_hi).
Proof.
  intros Hle. split; [apply truncate_budget_monotone; exact Hle|]. split.
  - intros [out_lo su_lo] Hrun.
    apply summarizeContext_returns in Hrun. destruct Hrun as [n Hrun].
    destruct (summarizeContext_monotone n msgs out_lo lo hi su_lo Hle Hrun)
      as [out_hi [su_hi [Hhi Hcount]]].
    exists (out_hi, su_hi). split; [|exact Hcount].
    apply summarizeContext_returns. exists n. exact Hhi.
  - intros r_lo.
    unfold compressContext, compressContextWith, COMPRESSION_THRESHOLD.
    cbv zeta. cbn [maxTokens type run_summarize service].
    set (cap := (window_or_default w * (75 # 100))%Q).
    assert (JS.min lo cap <= JS.min hi cap)%Q as Hmin
        by (apply Q.min_le_compat_r; exact Hle).
    destruct (JS.le (JS.of_nat (count msgs)) (JS.min lo cap)) eqn:Elo.
    + rewrite (fits_larger_budget _ _ _ Hmin Elo).
      intros [= <-]. eexists. split; [reflexivity|]. simpl. lia.
    + destruct (summarizeCtx fuel msgs (JS.min lo cap))
        as [[out_lo su_lo]|] eqn:Hrun; [|discriminate].
      intros [= <-]. cbn [compressedTokenCount].
      destruct (JS.le (JS.of_nat (count msgs)) (JS.min hi cap)) eqn:Ehi.
      * eexists. split; [reflexivity|]. cbn [compressedTokenCount].
        apply summarizeContext_fits in Hrun.
        pose proof (fits_below _ _ _ Hrun Elo). lia.
      * destruct (summarizeContext_monotone fuel msgs out_lo _ _ su_lo
                    Hmin Hrun) as [out_hi [su_hi [Hhi Hcount]]].
        rewrite Hhi. eexists. split; [reflexivity|].
        cbn [compressedTokenCount]. exact Hcount.
Qed.

(** ** Further properties of the service *)

(** *** The token estimator does not depend on the order of the turns *)

(** X1.  Two transcripts with the same turns in any order have the same
token count. *)
Theorem countTokens_permutation (a b : list Message) :
  Permutation a b -> count a = count b.
Proof.
  intros H. induction H as [|m a b _ IH|m m' a|a b c _ IH1 _ IH2].
  - reflexivity.
  - rewrite !countTokens_cons, IH. reflexivity.
  - rewrite !countTokens_cons. lia.
  - congruence.
Qed.

(** *** truncateContext: what is kept *)

Lemma unshift_all_fit (older : list Message) T cur res :
  JS.le (JS.of_nat (cur + count older)) T = true ->
  unshift older T cur res = rev older ++ res.
Proof.
  revert cur res. induction older as [|m older IH]; intros cur res Hfit;
    simpl; [reflexivity|].
  rewrite countTokens_cons, <- countTokens_one in Hfit.
  assert (JS.le (JS.of_nat (cur + count [m])) T = true) as Hm
      by (eapply fits_fewer; [|exact Hfit]; lia).
  rewrite Hm, IH.
  - rewrite <- app_assoc. reflexivity.
  - eapply fits_fewer; [|exact Hfit]. lia.
Qed.

(** X2.  With a recency window of at least one turn, [truncateContext]
returns a suffix of the transcript: it drops a prefix and nothing else.
When the transcript is longer than the window and the window fits the
budget, the whole window is at the end of the output. *)
Theorem truncateContext_keeps_recent_suffix
        (msgs : list Message) (T : JS.number) (p : nat) :
  1 <= p ->
  (exists dropped, msgs = dropped ++ truncateCtx msgs T p)
  /\ (p < length msgs ->
      JS.le (JS.of_nat (count (JS.slice_from msgs (- Z.of_nat p)))) T = true ->
      exists kept,
        truncateCtx msgs T p = kept ++ JS.slice_from msgs (- Z.of_nat p)).
Proof.
  intros Hp. split; [apply truncateContext_suffix; exact Hp|].
  intros Hlen Hfit. rewrite truncateContext_body.
  destruct (Nat.leb_spec (length msgs) p) as [Hle|_]; [lia|].
  cbv zeta. rewrite gt_negb_le, Hfit. simpl negb. cbv iota.
  apply unshift_extends.
Qed.

(** X3.  With [preserveRecent = 0] the window [messages.slice(-0)] is the
whole transcript and the backward loop starts at the last turn: a non-empty
transcript that fits the budget twice over is returned twice over. *)
Theorem truncateContext_zero_window_duplicates
        (msgs : list Message) (T : JS.number) :
  msgs <> [] ->
  JS.le (JS.of_nat (count msgs + count msgs)) T = true ->
  truncateCtx msgs T 0 = msgs ++ msgs.
Proof.
  intros Hne Hfit. rewrite truncateContext_body.
  destruct (Nat.leb_spec (length msgs) 0) as [Hle|_].
  { destruct msgs; [contradiction | simpl in Hle; lia]. }
  cbv zeta. rewrite slice_from_zero, gt_negb_le.
  rewrite (fits_fewer (count msgs) (count msgs + count msgs) T) by (lia || exact Hfit).
  simpl negb. cbv iota.
  rewrite Nat.sub_0_r, firstn_all.
  rewrite unshift_all_fit by (rewrite countTokens_rev; exact Hfit).
  rewrite rev_involutive. reflexivity.
Qed.

(** *** slidingWindowCompress: budget and order *)

Lemma countTokens_insert (cmp : Message -> Message -> JS.number)
      (x : Message) (l : list Message) :
  count (JS.insert cmp x l) = count (x :: l).
Proof.
  induction l as [|y l IH]; simpl; [reflexivity|].
  destruct (JS.gt (cmp x y) 0%Q); [|reflexivity].
  rewrite (countTokens_cons y), IH, !countTokens_cons. lia.
Qed.

Lemma countTokens_sort (cmp : Message -> Message -> JS.number)
      (l : list Message) :
  count (JS.sort cmp l) = count l.
Proof.
  induction l as [|x l IH]; simpl; [reflexivity|].
  rewrite countTokens_insert, !countTokens_cons, IH. reflexivity.
Qed.

Lemma fits_share_fits_budget (n : nat) (T : JS.number) :
  JS.le (JS.of_nat n) (T * (3 # 10))%Q = true -> JS.le (JS.of_nat n) T = true.
Proof.
  intros H. apply le_true_iff in H. apply le_true_iff.
  assert (0 <= JS.of_nat n)%Q as Hn.
  { unfold JS.of_nat. change 0%Q with (inject_Z 0). rewrite <- Zle_Qle. lia. }
  lra.
Qed.

Lemma push_important_within_budget (msgs : list Message) (T : JS.number)
      (important : list nat) :
  push_important JSON_stringify encode msgs T important = []
  \/ JS.le (JS.of_nat (count (push_important JSON_stringify encode msgs T
                                important))) T = true.
Proof.
  unfold push_important.
  assert (forall idxs result,
             result = [] \/ JS.le (JS.of_nat (count result)) T = true ->
             let out :=
               fold_left
                 (fun result idx =>
                    match nth_error msgs idx with
                    | Some m =>
                        if JS.le (JS.of_nat (count (result ++ [m])))
                                 (T * (3 # 10))%Q
                        then result ++ [m] else result
                    | None => result
                    end) idxs result in
             out = [] \/ JS.le (JS.of_nat (count out)) T = true) as H.
  { induction idxs as [|idx idxs IH]; intros result Hres; simpl; [exact Hres|].
    apply IH.
    destruct (nth_error msgs idx) as [m|]; [|exact Hres].
    destruct (JS.le (JS.of_nat (count (result ++ [m]))) (T * (3 # 10))%Q)
      eqn:E; [|exact Hres].
    right. apply fits_share_fits_budget. exact E. }
  apply H. left. reflexivity.
Qed.

Lemma push_representatives_within_budget (msgs : list Message)
      (T : JS.number) (windowSize : nat) (ends : list nat)
      (result : list Message) :
  result = [] \/ JS.le (JS.of_nat (count result)) T = true ->
  push_representatives JSON_stringify encode JSON_stringify_blocks msgs T
                       windowSize ends result = []
  \/ JS.le (JS.of_nat
              (count (push_representatives JSON_stringify encode
                        JSON_stringify_blocks msgs T windowSize ends result)))
           T = true.
Proof.
  revert result.
  induction ends as [|i ends IH]; intros result Hres; simpl; [exact Hres|].
  destruct (selectRepresentative _ _ _ _) as [r|]; [|apply IH; exact Hres].
  destruct (JS.includes (@same json) result r); simpl negb; cbv iota;
    [apply IH; exact Hres|].
  destruct (JS.le (JS.of_nat (count (JS.sort (by_position msgs)
                                             (result ++ [r])))) T) eqn:E;
    [|exact Hres].
  apply IH. right. rewrite countTokens_sort in E. exact E.
Qed.

(** X4.  The output of the Sliding Window strategy is empty or within the
budget: unlike Truncate and Priority-Based it never exceeds [maxTokens]. *)
Theorem slidingWindowCompress_within_budget
        (msgs : list Message) (T : JS.number) :
  slidingWindow msgs T = []
  \/ JS.le (JS.of_nat (count (slidingWindow msgs T))) T = true.
Proof.
  unfold slidingWindowCompress. cbv zeta.
  match goal with
  | |- JS.sort _ ?r = [] \/ _ =>
      assert (r = [] \/ JS.le (JS.of_nat (count r)) T = true) as H
        by apply push_representatives_within_budget,
                 push_important_within_budget;
      destruct H as [H|H]
  end.
  - left. rewrite H. reflexivity.
  - right. rewrite countTokens_sort. exact H.
Qed.

(** X5.  On a transcript of distinct turn objects the Sliding Window
strategy returns turns of the transcript, at strictly increasing positions,
and so never more turns than it was given. *)
Theorem slidingWindowCompress_subsequence
        (msgs : list Message) (T : JS.number) :
  distinct_turns msgs ->
  Forall (fun m => In m msgs) (slidingWindow msgs T)
  /\ StronglySorted Z.lt (map (position msgs) (slidingWindow msgs T))
  /\ length (slidingWindow msgs T) <= length msgs.
Proof.
  intros Hd.
  destruct (slidingWindowCompress_keeps_order msgs T Hd) as [Hin Hsorted].
  split; [exact Hin|]. split; [exact Hsorted|].
  pose proof (slidingWindowCompress_distinct msgs T Hd) as Hout.
  unfold distinct_turns in Hout, Hd.
  rewrite <- (length_map (@oid json) (slidingWindow msgs T)).
  rewrite <- (length_map (@oid json) msgs).
  apply NoDup_incl_length; [exact Hout|].
  intros x Hx. apply in_map_iff in Hx. destruct Hx as [m [<- Hm]].
  apply in_map. rewrite Forall_forall in Hin. apply Hin. exact Hm.
Qed.

(** *** priorityBasedCompress: size of the output, and transcripts that fit *)

Local Abbreviation priorities :=
  (calculatePriorities JSON_stringify encode JSON_stringify_blocks).
Local Abbreviation by_priority :=
  (fun a b : MessagePriority json => (priority b - priority a)%Q).

Lemma priority_loop_length (T : JS.number) (items : list (MessagePriority json))
      (result : list Message) (cur next : nat) :
  length (fst (fst (fold_left (priority_step JSON_stringify encode T) items
                              (result, cur, next))))
  <= length result + length items.
Proof.
  revert result cur next.
  induction items as [|item items IH]; intros result cur next; simpl fold_left.
  - simpl. lia.
  - destruct (priority_step JSON_stringify encode T (result, cur, next) item)
      as [[result' cur'] next'] eqn:Estep.
    assert (length result' <= S (length result)) as Hstep.
    { unfold priority_step in Estep.
      destruct (JS.le _ T).
      - injection Estep as <- _ _. rewrite length_app. simpl. lia.
      - destruct (JS.lt _ _).
        + destruct (truncateMessage _ _ _ _ _) as [t|];
            injection Estep as <- _ _; [rewrite length_app; simpl|]; lia.
        + injection Estep as <- _ _. lia. }
    specialize (IH result' cur' next'). rewrite <- Estep in IH.
    change (length (item :: items)) with (S (length items)).
    eapply Nat.le_trans; [exact IH | lia].
Qed.

Lemma calculatePriorities_length (msgs : list Message) :
  length (priorities msgs) = length msgs.
Proof.
  rewrite <- (calculatePriorities_messages msgs) at 2.
  rewrite length_map. reflexivity.
Qed.

(** X6.  The Priority-Based strategy returns at most one turn (whole or
truncated) per turn of the transcript. *)
Theorem priorityBasedCompress_length (msgs : list Message) (T : JS.number) :
  length (priorityBased msgs T) <= length msgs.
Proof.
  unfold priorityBasedCompress. cbv zeta.
  set (sorted := JS.sort _ (priorities msgs)).
  pose proof (priority_loop_length T sorted [] 0 (fresh_oid msgs)) as H.
  destruct (fold_left _ sorted _) as [[result cur] next]. simpl in H.
  rewrite (Permutation_length (sort_permutation (by_position msgs) result)).
  assert (length sorted = length msgs) as <-.
  { unfold sorted.
    rewrite (Permutation_length (sort_permutation _ (priorities msgs))).
    apply calculatePriorities_length. }
  exact H.
Qed.

Lemma calculatePriorities_tokenCount (msgs : list Message) :
  Forall (fun it => tokenCount it = count [message it]) (priorities msgs).
Proof.
  unfold calculatePriorities. apply Forall_forall.
  intros it Hin. apply in_map_iff in Hin.
  destruct Hin as [[index m] [<- _]]. reflexivity.
Qed.

Lemma priority_loop_all_fit (T : JS.number) (items : list (MessagePriority json))
      (result : list Message) (cur next : nat) :
  Forall (fun it => tokenCount it = count [message it]) items ->
  JS.le (JS.of_nat (cur + count (map (@message json) items))) T = true ->
  fst (fst (fold_left (priority_step JSON_stringify encode T) items
                      (result, cur, next)))
  = result ++ map (@message json) items.
Proof.
  revert result cur.
  induction items as [|item items IH]; intros result cur Htok Hfit;
    simpl fold_left.
  - simpl. rewrite app_nil_r. reflexivity.
  - inversion Htok as [|? ? Hitem Htok']; subst.
    simpl map in Hfit |- *. rewrite countTokens_cons, <- countTokens_one in Hfit.
    rewrite Hitem.
    rewrite (fits_fewer (cur + count [message item])
               (cur + (count [message item]
                       + count (map (@message json) items))) T)
      by (lia || exact Hfit).
    rewrite IH; [rewrite <- app_assoc; reflexivity | exact Htok'|].
    eapply fits_fewer; [|exact Hfit]. lia.
Qed.

Lemma countTokens_insert_record
      (cmp : MessagePriority json -> MessagePriority json -> JS.number)
      (x : MessagePriority json) (l : list (MessagePriority json)) :
  count (map (@message json) (JS.insert cmp x l))
  = count (map (@message json) (x :: l)).
Proof.
  induction l as [|y l IH]; simpl; [reflexivity|].
  destruct (JS.gt (cmp x y) 0%Q); simpl; [|reflexivity].
  rewrite (countTokens_cons (message y)), IH. simpl.
  rewrite !countTokens_cons. lia.
Qed.

Lemma countTokens_sorted_records
      (cmp : MessagePriority json -> MessagePriority json -> JS.number)
      (items : list (MessagePriority json)) :
  count (map (@message json) (JS.sort cmp items))
  = count (map (@message json) items).
Proof.
  induction items as [|x items IH]; simpl; [reflexivity|].
  rewrite countTokens_insert_record. simpl.
  rewrite !countTokens_cons, IH. reflexivity.
Qed.

(** In a transcript of distinct turns, a turn sits at the position
[indexOf] reports. *)
Lemma indexOf_from_split (x : Message) (pre post : list Message) (i : Z) :
  NoDup (map (@oid json) (pre ++ x :: post)) ->
  JS.indexOf_from (@same json) x (pre ++ x :: post) i
  = (i + Z.of_nat (length pre))%Z.
Proof.
  revert i. induction pre as [|y pre IH]; intros i Hnd; simpl.
  - unfold same. rewrite Nat.eqb_refl. lia.
  - simpl in Hnd. inversion Hnd as [|? ? Hnotin Hnd']; subst.
    unfold same at 1.
    destruct (Nat.eqb_spec (oid y) (oid x)) as [E|_].
    + exfalso. apply Hnotin. rewrite E. apply in_map.
      apply in_or_app. right. left. reflexivity.
    + rewrite IH by exact Hnd'. lia.
Qed.

Lemma positions_increasing (msgs : list Message) :
  distinct_turns msgs -> StronglySorted Z.lt (map (position msgs) msgs).
Proof.
  intros Hd.
  assert (forall l pre, msgs = pre ++ l ->
             StronglySorted Z.lt (map (position msgs) l)) as H.
  { induction l as [|a l IH]; intros pre E; simpl; [constructor|].
    constructor.
    - apply (IH (pre ++ [a])). rewrite <- app_assoc. exact E.
    - rewrite Forall_map, Forall_forall. intros b Hb.
      destruct (in_split b l Hb) as [l1 [l2 ->]].
      unfold JS.indexOf.
      assert (msgs = (pre ++ a :: l1) ++ b :: l2) as E'
          by (rewrite <- app_assoc; exact E).
      assert (NoDup (map (@oid json) (pre ++ a :: l1 ++ b :: l2))) as Hda
          by (rewrite <- E; exact Hd).
      assert (NoDup (map (@oid json) ((pre ++ a :: l1) ++ b :: l2))) as Hdb
          by (rewrite <- E'; exact Hd).
      pose proof (indexOf_from_split a pre (l1 ++ b :: l2) 0 Hda) as Ha.
      pose proof (indexOf_from_split b (pre ++ a :: l1) l2 0 Hdb) as Hb'.
      rewrite <- E in Ha. rewrite <- E' in Hb'.
      rewrite Ha, Hb', length_app. simpl. lia. }
  apply (H msgs []). reflexivity.
Qed.

Lemma increasing_permutation_eq (f : Message -> Z) (l1 l2 : list Message) :
  StronglySorted Z.lt (map f l1) -> StronglySorted Z.lt (map f l2) ->
  Permutation l1 l2 -> l1 = l2.
Proof.
  revert l2. induction l1 as [|a l1 IH]; intros l2 H1 H2 Hp.
  - apply Permutation_nil in Hp. congruence.
  - destruct l2 as [|b l2]; [apply Permutation_sym, Permutation_nil in Hp;
                             discriminate|].
    simpl in H1, H2.
    inversion H1 as [|? ? H1' Ha]; subst. inversion H2 as [|? ? H2' Hb]; subst.
    rewrite Forall_map, Forall_forall in Ha, Hb.
    assert (a = b) as ->.
    { assert (In a (b :: l2)) as Hain
          by (eapply Permutation_in; [exact Hp | left; reflexivity]).
      assert (In b (a :: l1)) as Hbin
          by (eapply Permutation_in; [symmetry; exact Hp | left; reflexivity]).
      destruct Hain as [->|Hain]; [reflexivity|].
      destruct Hbin as [->|Hbin]; [reflexivity|].
      specialize (Ha b Hbin). specialize (Hb a Hain). lia. }
    f_equal. apply IH; [exact H1' | exact H2'|].
    eapply Permutation_cons_inv. exact Hp.
Qed.

(** X7.  A transcript of distinct turns that fits the budget comes back
from the Priority-Based strategy unchanged: every turn is kept whole and
the final sort restores the order. *)
Theorem priorityBasedCompress_identity_when_fits
        (msgs : list Message) (T : JS.number) :
  distinct_turns msgs ->
  JS.le (JS.of_nat (count msgs)) T = true ->
  priorityBased msgs T = msgs.
Proof.
  intros Hd Hfit. unfold priorityBasedCompress. cbv zeta.
  set (sorted := JS.sort by_priority (priorities msgs)).
  assert (Permutation (map (@message json) sorted) msgs) as Hperm.
  { rewrite <- (calculatePriorities_messages msgs) at 1.
    apply Permutation_map, sort_permutation. }
  pose proof (priority_loop_all_fit T sorted [] 0 (fresh_oid msgs)) as H.
  destruct (fold_left _ sorted _) as [[result cur] next]. simpl in H.
  rewrite H.
  - apply (increasing_permutation_eq (position msgs)).
    + apply sort_by_position_increasing.
      * unfold distinct_turns.
        eapply Permutation_NoDup;
          [apply Permutation_map; symmetry; exact Hperm | exact Hd].
      * eapply Permutation_Forall; [symmetry; exact Hperm|].
        apply Forall_forall. auto.
    + apply positions_increasing. exact Hd.
    + rewrite sort_permutation. exact Hperm.
  - eapply Permutation_Forall;
      [symmetry; apply sort_permutation | apply calculatePriorities_tokenCount].
  - unfold sorted. rewrite countTokens_sorted_records.
    rewrite calculatePriorities_messages. exact Hfit.
Qed.

(** *** The priority scorer *)

Lemma in_combine_seq {A} (l : list A) (k i : nat) (x : A) :
  In (i, x) (combine (seq k (length l)) l)
  <-> k <= i /\ nth_error l (i - k) = Some x.
Proof.
  revert k. induction l as [|y l IH]; intros k; simpl.
  - split; [intros [] | intros [_ H]]. destruct (i - k); discriminate.
  - rewrite IH. split.
    + intros [[= <- <-]|[Hk Hn]].
      * split; [lia|]. rewrite Nat.sub_diag. reflexivity.
      * split; [lia|]. replace (i - k) with (S (i - S k)) by lia. exact Hn.
    + intros [Hk Hn]. destruct (Nat.eq_dec i k) as [->|Hne].
      * left. rewrite Nat.sub_diag in Hn. simpl in Hn. congruence.
      * right. split; [lia|].
        replace (i - k) with (S (i - S k)) in Hn by lia. exact Hn.
Qed.

Lemma recency_term_bounds (index n : nat) :
  index < n ->
  (0 <= JS.of_nat index / JS.of_nat n * 30)%Q
  /\ (JS.of_nat index / JS.of_nat n * 30 < 30)%Q.
Proof.
  intros Hlt.
  assert (0 < JS.of_nat n)%Q as Hn.
  { unfold JS.of_nat. change 0%Q with (inject_Z 0). rewrite <- Zlt_Qlt. lia. }
  assert (0 <= JS.of_nat index / JS.of_nat n)%Q as H0.
  { apply Qle_shift_div_l; [exact Hn|]. rewrite Qmult_0_l.
    unfold JS.of_nat. change 0%Q with (inject_Z 0). rewrite <- Zle_Qle. lia. }
  assert (JS.of_nat index / JS.of_nat n < 1)%Q as H1.
  { apply Qlt_shift_div_r; [exact Hn|]. rewrite Qmult_1_l.
    unfold JS.of_nat. rewrite <- Zlt_Qlt. lia. }
  split; lra.
Qed.

(** X8.  The priority scorer returns one record per turn, in transcript
order, each with the turn's own token count and classifier flags, and every
score lies in the interval from -10 (included) to 105 (excluded). *)
Theorem calculatePriorities_records (msgs : list Message) :
  map (@message json) (priorities msgs) = msgs
  /\ Forall (fun it =>
               tokenCount it = count [message it]
               /\ isToolUse it = messageHasToolUse (message it)
               /\ hasError it
                  = messageContainsError JSON_stringify_blocks (message it)
               /\ (- (10) <= priority it)%Q
               /\ (priority it < 105)%Q)
            (priorities msgs).
Proof.
  split; [apply calculatePriorities_messages|].
  unfold calculatePriorities. apply Forall_forall.
  intros it Hin. apply in_map_iff in Hin.
  destruct Hin as [[index m] [<- Hin]].
  apply in_combine_seq in Hin. destruct Hin as [_ Hnth].
  assert (index < length msgs) as Hlt
      by (rewrite Nat.sub_0_r in Hnth; apply nth_error_Some; congruence).
  destruct (recency_term_bounds index (length msgs) Hlt) as [Hlo Hhi].
  cbv zeta. cbn [message priority tokenCount isToolUse hasError].
  repeat split.
  - set (q := (JS.of_nat index / JS.of_nat (length msgs) * 30)%Q) in *.
    destruct (Role_eqb (role m) user), (messageContainsError _ m),
      (messageHasToolUse m), ((index =? 0) || (index =? length msgs - 1)),
      (count [m] <? 100), (1000 <? count [m]); lra.
  - set (q := (JS.of_nat index / JS.of_nat (length msgs) * 30)%Q) in *.
    destruct (Role_eqb (role m) user), (messageContainsError _ m),
      (messageHasToolUse m), ((index =? 0) || (index =? length msgs - 1)),
      (count [m] <? 100), (1000 <? count [m]); lra.
Qed.

(** *** Important turns and window representatives *)

Lemma set_of_In (l : list nat) (x : nat) : In x (JS.set_of l) <-> In x l.
Proof.
  unfold JS.set_of.
  assert (forall seen,
             In x (fold_left (fun seen y => JS.set_add y seen) l seen)
             <-> In x seen \/ In x l) as H.
  { induction l as [|y l IH]; intros seen; simpl.
    - tauto.
    - rewrite IH, set_add_In. intuition congruence. }
  rewrite H. simpl. tauto.
Qed.

(** X9.  [identifyImportantMessages] returns each index at most once, and
exactly the indices of the turns that are user-authored, carry an error
keyword, or stand first or last in the transcript. *)
Theorem identifyImportantMessages_spec (msgs : list Message) :
  NoDup (identifyImportantMessages JSON_stringify_blocks msgs)
  /\ forall i,
      In i (identifyImportantMessages JSON_stringify_blocks msgs)
      <-> exists m,
          nth_error msgs i = Some m
          /\ (Role_eqb (role m) user
              || messageContainsError JSON_stringify_blocks m
              || (i =? 0) || (i =? length msgs - 1)) = true.
Proof.
  unfold identifyImportantMessages. split; [apply set_of_NoDup|].
  intros i. rewrite set_of_In.
  assert (forall pairs acc,
             In i (fold_left
                     (fun important '(index, message) =>
                        let important :=
                          if Role_eqb (role message) user
                          then important ++ [index] else important in
                        let important :=
                          if messageContainsError JSON_stringify_blocks message
                          then important ++ [index] else important in
                        if (index =? 0) || (index =? length msgs - 1)
                        then important ++ [index] else important)
                     pairs acc)
             <-> In i acc
                 \/ exists m,
                     In (i, m) pairs
                     /\ (Role_eqb (role m) user
                         || messageContainsError JSON_stringify_blocks m
                         || (i =? 0) || (i =? length msgs - 1)) = true) as H.
  { induction pairs as [|[index m] pairs IH]; intros acc; simpl.
    - split; [tauto | intros [H|[m [[] _]]]; exact H].
    - rewrite IH. clear IH.
      split.
      + intros [Hacc|[m' [Hin Hc]]]; [|right; exists m'; tauto].
        destruct (Role_eqb (role m) user) eqn:Eu,
          (messageContainsError JSON_stringify_blocks m) eqn:Ee,
          ((index =? 0) || (index =? length msgs - 1)) eqn:Eb;
          repeat (apply in_app_or in Hacc;
                  destruct Hacc as [Hacc|[<-|[]]]);
          try (left; exact Hacc);
          right; exists m; (split; [left; reflexivity|]);
          rewrite ?Eu, ?Ee; simpl; rewrite <- ?orb_assoc, ?Eb;
          rewrite ?orb_true_r; reflexivity.
      + intros [Hacc|[m' [[[= <- <-]|Hin] Hc]]].
        * left.
          destruct (Role_eqb (role m) user),
            (messageContainsError JSON_stringify_blocks m),
            ((index =? 0) || (index =? length msgs - 1));
            repeat (apply in_or_app; left); exact Hacc.
        * left. rewrite <- !orb_assoc in Hc.
          destruct (Role_eqb (role m) user),
            (messageContainsError JSON_stringify_blocks m),
            ((index =? 0) || (index =? length msgs - 1));
            simpl in Hc; try discriminate;
            try (apply in_or_app; right; left; reflexivity);
            apply in_or_app; left;
            try (apply in_or_app; right; left; reflexivity);
            apply in_or_app; left; apply in_or_app; right; left; reflexivity.
        * right. exists m'. tauto. }
  rewrite H. simpl. split.
  - intros [[]|[m [Hin Hc]]]. exists m. split; [|exact Hc].
    apply in_combine_seq in Hin. rewrite Nat.sub_0_r in Hin. tauto.
  - intros [m [Hn Hc]]. right. exists m. split; [|exact Hc].
    apply in_combine_seq. rewrite Nat.sub_0_r. split; [lia | exact Hn].
Qed.

Lemma shortest_least (first : Message) (rest : list Message) :
  Forall (fun m =>
            count [fold_left (fun shortest current =>
                                if count [current] <? count [shortest]
                                then current else shortest) rest first]
            <= count [m])
         (first :: rest).
Proof.
  assert (forall rest first bound,
             count [first] <= bound ->
             count [fold_left (fun shortest current =>
                                 if count [current] <? count [shortest]
                                 then current else shortest) rest first]
             <= bound) as Hdown.
  { induction rest0 as [|m rest0 IH]; intros first0 bound Hb; simpl;
      [exact Hb|].
    apply IH. destruct (Nat.ltb_spec (count [m]) (count [first0])); lia. }
  revert first. induction rest as [|m rest IH]; intros first; simpl.
  - constructor; [lia | constructor].
  - constructor.
    + apply Hdown. destruct (Nat.ltb_spec (count [m]) (count [first])); lia.
    + specialize (IH (if count [m] <? count [first] then m else first)).
      inversion IH as [|? ? Hhd Htl]; subst.
      constructor; [|exact Htl].
      apply Hdown. destruct (Nat.ltb_spec (count [m]) (count [first])); lia.
Qed.

(** X10.  [selectRepresentative] answers [null] exactly on the empty
window.  Otherwise the representative is a turn of the window: a user turn
when the window has one; else a turn with an error keyword when the window
has one; else a turn with the least token count of the window. *)
Theorem selectRepresentative_spec (window : list Message) :
  (selectRepresentative JSON_stringify encode JSON_stringify_blocks window
   = None <-> window = [])
  /\ forall r,
      selectRepresentative JSON_stringify encode JSON_stringify_blocks window
      = Some r ->
      In r window
      /\ (existsb (fun m => Role_eqb (role m) user) window = true ->
          Role_eqb (role r) user = true)
      /\ (existsb (fun m => Role_eqb (role m) user) window = false ->
          existsb (messageContainsError JSON_stringify_blocks) window = true ->
          messageContainsError JSON_stringify_blocks r = true)
      /\ (existsb (fun m => Role_eqb (role m) user) window = false ->
          existsb (messageContainsError JSON_stringify_blocks) window = false ->
          Forall (fun m => count [r] <= count [m]) window).
Proof.
  split.
  - unfold selectRepresentative, JS.find.
    destruct window as [|first rest]; [tauto|].
    split; [|discriminate].
    destruct (List.find _ (first :: rest)); [discriminate|].
    destruct (List.find _ (first :: rest)); discriminate.
  - intros r Hsel. split; [apply selectRepresentative_In; exact Hsel|].
    unfold selectRepresentative, JS.find in Hsel.
    destruct window as [|first rest]; [discriminate|].
    destruct (List.find (fun m => Role_eqb (role m) user) (first :: rest))
      as [u|] eqn:Eu.
    + injection Hsel as <-. apply find_some in Eu. destruct Eu as [Hin Hu].
      assert (existsb (fun m => Role_eqb (role m) user) (first :: rest) = true)
        as Hex by (apply existsb_exists; exists u; tauto).
      repeat split; [tauto | congruence | congruence].
    + assert (existsb (fun m => Role_eqb (role m) user) (first :: rest) = false)
        as Hnu.
      { destruct (existsb _ (first :: rest)) eqn:Ex; [|reflexivity].
        apply existsb_exists in Ex. destruct Ex as [m [Hm Hr]].
        rewrite (find_none _ _ Eu m Hm) in Hr. discriminate. }
      destruct (List.find (messageContainsError JSON_stringify_blocks)
                          (first :: rest)) as [e|] eqn:Ee.
      * injection Hsel as <-. apply find_some in Ee. destruct Ee as [Hin He].
        assert (existsb (messageContainsError JSON_stringify_blocks)
                        (first :: rest) = true)
          as Hex by (apply existsb_exists; exists e; tauto).
        repeat split; [congruence | tauto | congruence].
      * injection Hsel as <-.
        repeat split; [congruence | |].
        -- intros _ Hex. apply existsb_exists in Hex.
           destruct Hex as [m [Hm He]].
           rewrite (find_none _ _ Ee m Hm) in He. discriminate.
        -- intros _ _. apply shortest_least.
Qed.

(** *** truncateMessage *)

Lemma truncate_blocks_kept (id : nat) (r : Role) (bs : list (ContentBlock json))
      (maxT : JS.number) (blocks acc : list (ContentBlock json)) (cur : nat) :
  incl blocks bs ->
  exists extra,
    truncate_blocks JSON_stringify encode id r blocks maxT cur acc
    = acc ++ extra
    /\ length extra <= length blocks
    /\ Forall (fun b =>
                 In b bs
                 \/ exists text k,
                     In (text_block text) bs
                     /\ b = text_block
                              (String.substring 0 k text ++ TRUNCATED)%string)
              extra.
Proof.
  revert acc cur. induction blocks as [|block blocks IH]; intros acc cur Hincl;
    simpl.
  - exists []. rewrite app_nil_r.
    split; [reflexivity|]. split; [simpl; lia | constructor].
  - assert (incl blocks bs) as Hincl'
        by (intros b Hb; apply Hincl; right; exact Hb).
    assert (In block bs) as Hblock by (apply Hincl; left; reflexivity).
    assert (forall acc' cur',
               exists extra,
                 truncate_blocks JSON_stringify encode id r blocks maxT cur' acc'
                 = acc' ++ extra
                 /\ length extra <= S (length blocks)
                 /\ Forall (fun b =>
                              In b bs
                              \/ exists text k,
                                  In (text_block text) bs
                                  /\ b = text_block
                                           (String.substring 0 k text
                                            ++ TRUNCATED)%string)
                           extra) as Hskip.
    { intros acc' cur'. destruct (IH acc' cur' Hincl') as [extra [E [Hl Hf]]].
      exists extra. split; [exact E|]. split; [lia | exact Hf]. }
    destruct (JS.le _ maxT).
    + destruct (IH (acc ++ [block]) (cur + count [mkMessage id r (Blocks [block])])
                   Hincl') as [extra [E [Hl Hf]]].
      exists (block :: extra). rewrite E, <- app_assoc.
      split; [reflexivity|]. split; [simpl; lia|].
      constructor; [left; exact Hblock | exact Hf].
    + destruct block as [text| | |]; try apply Hskip.
      destruct (JS.lt _ _); [|apply Hskip].
      eexists. split; [reflexivity|]. split; [simpl; lia|].
      constructor; [|constructor]. right.
      exists text. eexists. split; [exact Hblock|]. reflexivity.
Qed.

(** X11.  [truncateMessage] keeps the role.  On a text turn it never answers
[null]: it returns the turn itself when it fits, else a new turn whose text
is a prefix of the original followed by the marker.  On a block turn a
result is a new turn with at least one and at most as many blocks as the
original, each an original block or a text block cut in the same way. *)
Theorem truncateMessage_result (m : Message) (maxT : JS.number) (id : nat) :
  (forall c,
      content m = Text c ->
      exists t,
        truncateMessage JSON_stringify encode m maxT id = Some t
        /\ role t = role m
        /\ (JS.le (JS.of_nat (length (encode c))) maxT = true -> t = m)
        /\ (JS.le (JS.of_nat (length (encode c))) maxT = false ->
            oid t = id
            /\ exists k,
                content t
                = Text (String.substring 0 k c ++ TRUNCATED)%string))
  /\ (forall bs t,
         content m = Blocks bs ->
         truncateMessage JSON_stringify encode m maxT id = Some t ->
         oid t = id /\ role t = role m
         /\ exists bs',
             content t = Blocks bs' /\ bs' <> []
             /\ length bs' <= length bs
             /\ Forall (fun b =>
                          In b bs
                          \/ exists text k,
                              In (text_block text) bs
                              /\ b = text_block
                                       (String.substring 0 k text
                                        ++ TRUNCATED)%string)
                       bs').
Proof.
  split.
  - intros c Hc. unfold truncateMessage. rewrite Hc.
    destruct (JS.le (JS.of_nat (length (encode c))) maxT).
    + exists m. repeat split; [discriminate | discriminate].
    + eexists. split; [reflexivity|]. simpl.
      repeat split; [discriminate|]. eexists. reflexivity.
  - intros bs t Hc. unfold truncateMessage. rewrite Hc.
    destruct (truncate_blocks_kept id (role m) bs maxT bs [] 0 (incl_refl bs))
      as [extra [E [Hl Hf]]].
    simpl in E. rewrite E.
    destruct (Nat.ltb_spec 0 (length extra)) as [Hpos|_]; [|discriminate].
    intros [= <-]. simpl. split; [reflexivity|]. split; [reflexivity|].
    exists extra. split; [reflexivity|].
    split; [intros ->; simpl in Hpos; lia|]. split; [exact Hl | exact Hf].
Qed.

(** *** The orchestrator's accounting *)

(** X12.  Whatever the strategies do, a result of [compressContext] reports
the token count of the input, the token count of the transcript it returns
and the descriptor it was given; its ratio is 1 with the input returned as
it is, or the quotient of the two counts. *)
Theorem compressContext_accounting (this : Strategies json)
        (msgs : list Message) (strat : CompressionStrategy)
        (w : option JS.number) (r : CompressedContext json) :
  compressContextWith JSON_stringify encode this msgs strat w = Some r ->
  originalTokenCount r = count msgs
  /\ compressedTokenCount r = count (messages r)
  /\ strategy r = strat
  /\ ((compressionRatio r = JS.Finite 1 /\ messages r = msgs)
      \/ compressionRatio r
         = JS.div (compressedTokenCount r) (originalTokenCount r)).
Proof.
  unfold compressContextWith. cbv zeta.
  destruct (JS.le _ _).
  - intros [= <-]. simpl. repeat split. left. split; reflexivity.
  - destruct (type strat).
    + destruct (run_summarize this msgs _) as [[out su]|]; [|discriminate].
      intros [= <-]. simpl. repeat split. right. reflexivity.
    + intros [= <-]. simpl. repeat split. right. reflexivity.
    + intros [= <-]. simpl. repeat split. right. reflexivity.
    + intros [= <-]. simpl. repeat split. right. reflexivity.
Qed.

(** *** adaptiveCompress *)

Local Abbreviation adaptive :=
  (adaptiveCompress JSON_stringify encode JSON_stringify_blocks).

(** X13.  Without a preferred strategy [adaptiveCompress] always returns,
and the descriptor of its result is of type truncate: the selector never
picks another strategy. *)
Theorem adaptiveCompress_default_is_truncate
        (fuel : nat) (msgs : list Message) (w : JS.number) :
  exists r,
    adaptive fuel msgs w None = Some r
    /\ type (strategy r) = truncate
    /\ originalTokenCount r = count msgs.
Proof.
  unfold adaptiveCompress. cbv zeta.
  destruct (detectContextOverflow _ w); simpl negb; cbv iota.
  - unfold compressContext, compressContextWith, selectBestStrategy. cbv zeta.
    cbn [type maxTokens preserveRecent].
    destruct (JS.le _ _); eexists; (split; [reflexivity|]); simpl; tauto.
  - eexists. split; [reflexivity|]. simpl. tauto.
Qed.

Lemma min_left (a b : JS.number) : (a <= b)%Q -> JS.min a b = a.
Proof.
  intros H. unfold JS.min, Qmin, GenericMinMax.gmin.
  pose proof (proj1 (Qle_alt a b) H) as H'.
  destruct (a ?= b)%Q; congruence.
Qed.

(** X14.  Once an overflow is detected on a positive window,
[adaptiveCompress] without a preferred strategy returns what
[truncateContext] returns for the budget [floor(window * 0.6)] and the
recency window [min(10, floor(length * 0.3))]: the fast path of
[compressContext] is never taken. *)
Theorem adaptiveCompress_overflow_truncates
        (fuel : nat) (msgs : list Message) (w : JS.number) :
  (0 < w)%Q ->
  detectContextOverflow (JS.of_nat (count msgs)) w = true ->
  option_map (@messages json) (adaptive fuel msgs w None)
  = Some (truncateCtx msgs
            (inject_Z (JS.floor (w * (6 # 10))%Q))
            (Nat.min 10
               (Z.to_nat
                  (JS.floor (JS.of_nat (length msgs) * (3 # 10))%Q)))).
Proof.
  intros Hw Hover. unfold adaptiveCompress. cbv zeta.
  rewrite Hover. simpl negb. cbv iota.
  unfold compressContext, compressContextWith, selectBestStrategy. cbv zeta.
  cbn [type maxTokens preserveRecent window_or_default].
  unfold detectContextOverflow, JS.ge in Hover. apply le_true_iff in Hover.
  assert (inject_Z (JS.floor (w * (6 # 10))%Q) <= w * (6 # 10))%Q as Hfloor
      by apply Qfloor_le.
  rewrite min_left by (unfold COMPRESSION_THRESHOLD; lra).
  assert (JS.le (JS.of_nat (count msgs))
                (inject_Z (JS.floor (w * (6 # 10))%Q)) = false) as ->.
  { apply le_false_iff. unfold COMPRESSION_THRESHOLD in Hover. lra. }
  reflexivity.
Qed.

(** *** summarizeContext: what a result looks like *)

Lemma slice_from_suffix {A} (l : list A) (k : Z) :
  exists dropped, l = dropped ++ JS.slice_from l k.
Proof.
  unfold JS.slice_from.
  exists (firstn (Z.to_nat (JS.clamp (Z.of_nat (length l)) k)) l).
  symmetry. apply firstn_skipn.
Qed.

Lemma summarizeStep_cases (msgs : list Message) (T : JS.number) :
  exists dropped preserved summarized,
    msgs = dropped ++ preserved
    /\ ((summarizeStp msgs T = Recurse preserved)
        \/ (summarizeStp msgs T
            = Return (summaryMessage json (fresh_oid msgs)
                        (generateSummary JSON_stringify_blocks summarized)
                      :: preserved)
                     (generateSummary JSON_stringify_blocks summarized)
            /\ JS.le (JS.of_nat
                        (count (summaryMessage json (fresh_oid msgs)
                                  (generateSummary JSON_stringify_blocks
                                     summarized)
                                :: preserved))) T = true)).
Proof.
  unfold summarizeStep. cbv zeta.
  set (k := (- JS.floor (JS.of_nat (length msgs) * (2 # 10))%Q)%Z).
  destruct (slice_from_suffix msgs k) as [dropped E].
  exists dropped, (JS.slice_from msgs k), (JS.slice msgs 0 k).
  split; [exact E|].
  rewrite gt_negb_le.
  destruct (JS.le _ T) eqn:Hfit; simpl negb; cbv iota.
  - right. split; reflexivity.
  - left. reflexivity.
Qed.

(** X15.  Whenever the Summarize strategy returns, its output is within the
budget and consists of one synthetic summary turn followed by a suffix of
the transcript; the summary text it reports is the one that turn carries. *)
Theorem summarizeContext_result (T : JS.number) (msgs out : list Message)
        (summary : string) :
  summarizeRet T msgs (out, summary) ->
  JS.le (JS.of_nat (count out)) T = true
  /\ exists id dropped preserved,
      out = summaryMessage json id summary :: preserved
      /\ msgs = dropped ++ preserved.
Proof.
  intros H. remember (out, summary) as r eqn:Er. revert out summary Er.
  induction H as [msgs c su Hdone | msgs preserved r Hagain _ IH];
    intros out summary Er.
  - injection Er as -> ->.
    destruct (summarizeStep_cases msgs T)
      as [dropped [kept [summarized [E [Hs|[Hs Hfit]]]]]]; [congruence|].
    rewrite Hs in Hdone. injection Hdone as <- <-.
    split; [exact Hfit|]. eexists; exists dropped, kept.
    split; [reflexivity | exact E].
  - destruct (IH out summary Er) as [Hfit [id [dropped' [kept [Eout Ek]]]]].
    split; [exact Hfit|].
    destruct (summarizeStep_cases msgs T)
      as [dropped [kept0 [summarized [E [Hs|[Hs _]]]]]]; [|congruence].
    rewrite Hs in Hagain. injection Hagain as <-.
    exists id, (dropped ++ dropped'), kept.
    split; [exact Eout|]. rewrite <- app_assoc, <- Ek. exact E.
Qed.

(** X16.  On a transcript of fewer than five turns the Summarize strategy
summarizes nothing: it returns exactly when the summary of no turn followed
by the whole transcript fits the budget, and that is then its output, one
turn longer than its input. *)
Theorem summarizeContext_short_transcript (T : JS.number)
        (msgs : list Message) (r : list Message * string) :
  length msgs < 5 ->
  summarizeRet T msgs r
  <-> (JS.le (JS.of_nat
                (count (summaryMessage json (fresh_oid msgs)
                          (generateSummary JSON_stringify_blocks [])
                        :: msgs))) T = true
       /\ r = (summaryMessage json (fresh_oid msgs)
                 (generateSummary JSON_stringify_blocks []) :: msgs,
               generateSummary JSON_stringify_blocks [])).
Proof.
  intros Hlen.
  pose proof (summarizeStep_short msgs T Hlen) as Hstep.
  cbv zeta in Hstep. rewrite gt_negb_le in Hstep.
  destruct (JS.le _ T) eqn:Hfit; simpl negb in Hstep; cbv iota in Hstep.
  - split.
    + intros H. split; [reflexivity|].
      inversion H as [? c su Hdone|? preserved ? Hagain _]; subst.
      * rewrite Hstep in Hdone. injection Hdone as <- <-. reflexivity.
      * congruence.
    + intros [_ ->]. apply summarize_done. exact Hstep.
  - split.
    + intros H. exfalso.
      apply (proj2 (summarizeContext_stuck msgs T Hstep) r H).
    + intros [Hc _]. discriminate.
Qed.

(** *** hasHighPriorityMessages *)

Lemma gt_fraction (e n : nat) (a b : positive) :
  JS.gt (JS.of_nat e) (JS.of_nat n * (Z.pos a # b))%Q = true
  <-> n * Pos.to_nat a < e * Pos.to_nat b.
Proof.
  rewrite gt_negb_le, negb_true_iff, le_false_iff.
  unfold Qlt, JS.of_nat, Qmult, inject_Z. cbn [Qnum Qden].
  rewrite Pos.mul_1_l. split; intros H.
  - apply Nat2Z.inj_lt. rewrite !Nat2Z.inj_mul, !positive_nat_Z. lia.
  - apply Nat2Z.inj_lt in H. rewrite !Nat2Z.inj_mul, !positive_nat_Z in H. lia.
Qed.

(** X17.  [hasHighPriorityMessages] answers true exactly when more than a
tenth of the turns carry an error keyword or more than two fifths of them
are user-authored; it answers false on the empty transcript. *)
Theorem hasHighPriorityMessages_spec (msgs : list Message) :
  (hasHighPriorityMessages JSON_stringify_blocks msgs = true
   <-> length msgs
       < 10 * length (filter (messageContainsError JSON_stringify_blocks) msgs)
       \/ 2 * length msgs
          < 5 * length (filter (fun m => Role_eqb (role m) user) msgs))
  /\ hasHighPriorityMessages JSON_stringify_blocks [] = false.
Proof.
  split; [|reflexivity].
  unfold hasHighPriorityMessages. cbv zeta.
  rewrite orb_true_iff.
  change (1 # 10)%Q with (Z.pos 1 # 10)%Q. change (4 # 10)%Q with (Z.pos 4 # 10)%Q.
  rewrite !gt_fraction.
  change (Pos.to_nat 1) with 1. change (Pos.to_nat 10) with 10.
  change (Pos.to_nat 4) with 4. lia.
Qed.

End Properties.

(** C6.  [detectContextOverflow] answers true exactly when
    [currentTokens >= modelContextWindow * 0.75]; 750 of 1000 overflows,
    500 of 1000 does not. *)
Theorem detectContextOverflow_threshold :
  (forall currentTokens modelContextWindow : JS.number,
      detectContextOverflow currentTokens modelContextWindow = true
      <-> (modelContextWindow * (75 # 100) <= currentTokens)%Q)
  /\ detectContextOverflow 750%Q 1000%Q = true
  /\ detectContextOverflow 500%Q 1000%Q = false.
Proof.
  split; [|split; reflexivity].
  intros c w. unfold detectContextOverflow, JS.ge, COMPRESSION_THRESHOLD.
  apply le_true_iff.
Qed.

(** ** Properties of the message store's compression service *)

Section StoreProperties.

Variable json : Type.
Variable JSON_stringify : json -> string.

Local Abbreviation Stored := (CC.Message json).
Local Abbreviation important := (@CC.isImportantMessage json).
Local Abbreviation estimate := (CC.estimateMessageSize JSON_stringify).

Lemma slice_to_neg_length {A} (l : list A) (p : nat) :
  length (JS.slice l 0 (- Z.of_nat p)) =
  match p with 0 => 0 | _ => length l - p end.
Proof.
  unfold JS.slice, JS.clamp. rewrite length_firstn, length_skipn.
  destruct p as [|p].
  - simpl. lia.
  - change (0 <? 0)%Z with false. cbv iota.
    destruct (Z.ltb_spec (- Z.of_nat (S p)) 0); lia.
Qed.

Lemma slice_from_incl {A} (l : list A) (k : Z) (x : A) :
  In x (JS.slice_from l k) -> In x l.
Proof.
  unfold JS.slice_from. set (n := Z.to_nat _). intros H.
  rewrite <- (firstn_skipn n l). apply in_or_app. right. exact H.
Qed.

(** X18.  On more than fifty stored messages and a recency window of at
least one message, [compressMessages] returns the summary message, then at
most five old messages, each of them important, then the last
[preserveRecent] messages as they are: at most [preserveRecent + 6]
messages in all. *)
Theorem compressMessages_shape (clock : CC.Clock) (msgs : list Stored)
        (p : nat) :
  50 < length msgs -> 1 <= p ->
  exists kept,
    CC.compressMessages clock msgs p
    = CC.createSummaryMessage clock (JS.slice msgs 0 (- Z.of_nat p))
      :: kept ++ JS.slice_from msgs (- Z.of_nat p)
    /\ length kept <= 5
    /\ Forall (fun m => important m = true /\ In m msgs) kept
    /\ length (CC.compressMessages clock msgs p) <= p + 6.
Proof.
  intros Hlen Hp. unfold CC.compressMessages, CC.MAX_MESSAGES_TO_KEEP.
  destruct (Nat.leb_spec (length msgs) 50) as [Hle|_]; [lia|]. cbv zeta.
  set (old := JS.slice msgs 0 (- Z.of_nat p)).
  set (kept := JS.slice_from (filter important old) (-5)).
  assert (length kept <= 5) as Hkept.
  { subst kept. change (-5)%Z with (- Z.of_nat 5)%Z.
    rewrite slice_from_neg_length. lia. }
  exists kept. split; [reflexivity|]. split; [exact Hkept|]. split.
  - apply Forall_forall. intros m Hm. subst kept.
    apply slice_from_incl in Hm. apply filter_In in Hm.
    destruct Hm as [Hold Himp]. split; [exact Himp|].
    eapply slice_incl. exact Hold.
  - simpl length. rewrite length_app.
    pose proof (slice_from_neg_length msgs p) as Hrecent.
    destruct p as [|p']; [lia|]. lia.
Qed.

(** X19.  The summary message that [compressMessages] puts first is a user
message flagged as compressed; it records how many messages it stands for
([length - preserveRecent], none when [preserveRecent] is 0), and it is
itself important, so that a later compression counts it among the
important old messages. *)
Theorem compressMessages_summary (clock : CC.Clock) (msgs : list Stored)
        (p : nat) :
  50 < length msgs ->
  exists s rest,
    CC.compressMessages clock msgs p = s :: rest
    /\ CC.role s = user
    /\ CC.isCompressed s = Some true
    /\ CC.originalSize s
       = Some (match p with 0 => 0 | _ => length msgs - p end)
    /\ important s = true.
Proof.
  intros Hlen. unfold CC.compressMessages, CC.MAX_MESSAGES_TO_KEEP.
  destruct (Nat.leb_spec (length msgs) 50) as [Hle|_]; [lia|]. cbv zeta.
  eexists; eexists. split; [reflexivity|].
  cbn [CC.createSummaryMessage CC.role CC.isCompressed CC.originalSize].
  rewrite slice_to_neg_length.
  split; [reflexivity|]. split; [reflexivity|]. split; reflexivity.
Qed.

(** X20.  With [preserveRecent = 0], or a recency window that covers the
whole array, [compressMessages] on more than fifty messages removes
nothing: it returns the summary of no message followed by every message,
one more than it was given. *)
Theorem compressMessages_grows (clock : CC.Clock) (msgs : list Stored)
        (p : nat) :
  50 < length msgs -> p = 0 \/ length msgs <= p ->
  CC.compressMessages clock msgs p = CC.createSummaryMessage clock [] :: msgs.
Proof.
  intros Hlen Hp. unfold CC.compressMessages, CC.MAX_MESSAGES_TO_KEEP.
  destruct (Nat.leb_spec (length msgs) 50) as [Hle|_]; [lia|]. cbv zeta.
  assert (JS.slice msgs 0 (- Z.of_nat p) = []) as ->.
  { apply length_zero_iff_nil. rewrite slice_to_neg_length.
    destruct Hp as [->|Hp]; [reflexivity|]. destruct p; lia. }
  assert (JS.slice_from msgs (- Z.of_nat p) = msgs) as ->.
  { destruct Hp as [->|Hp]; [apply slice_from_zero|].
    unfold JS.slice_from, JS.clamp.
    destruct (Z.ltb_spec (- Z.of_nat p) 0) as [_|H0]; [|lia].
    rewrite Z.max_r by lia. reflexivity. }
  reflexivity.
Qed.

Lemma size_exceeds_total (msgs : list Stored) (acc : nat) :
  CC.size_exceeds JSON_stringify msgs acc = true
  <-> msgs <> [] /\ CC.MAX_CONTEXT_SIZE < acc + list_sum (map estimate msgs).
Proof.
  revert acc. induction msgs as [|m msgs IH]; intros acc; simpl.
  - split; [discriminate | intros [H _]; contradiction].
  - destruct (Nat.ltb_spec CC.MAX_CONTEXT_SIZE (acc + estimate m)) as [Hgt|Hle].
    + split; [|reflexivity]. intros _. split; [discriminate | lia].
    + rewrite IH. split.
      * intros [_ H]. split; [discriminate | lia].
      * intros [_ H]. split; [|lia].
        intros ->. simpl in H. lia.
Qed.

(** X21.  [shouldCompress] answers true exactly when there are more than
fifty messages or the estimated sizes of all messages add up to more than
150000: returning at the first running total above the limit loses
nothing. *)
Theorem shouldCompress_spec (msgs : list Stored) :
  CC.shouldCompress JSON_stringify msgs = true
  <-> 50 < length msgs \/ 150 * 1000 < list_sum (map estimate msgs).
Proof.
  unfold CC.shouldCompress, CC.MAX_MESSAGES_TO_KEEP.
  destruct (Nat.ltb_spec 50 (length msgs)) as [Hgt|Hle].
  - split; [intros _; left; exact Hgt | reflexivity].
  - rewrite size_exceeds_total. unfold CC.MAX_CONTEXT_SIZE.
    rewrite Nat.add_0_l. split.
    + intros [_ H]. right. exact H.
    + intros [H|H]; [lia|]. split; [|exact H].
      intros ->. cbn [map list_sum fold_right] in H. lia.
Qed.

(** X22.  The estimated size of a message is a quarter of the characters
its blocks count, rounded up. *)
Theorem estimateMessageSize_bounds (m : Stored) :
  let size :=
    fold_left (fun size block => size + CC.blockSize JSON_stringify block)
              (CC.content m) 0 in
  size <= 4 * estimate m /\ 4 * estimate m < size + 4.
Proof.
  intros size. unfold CC.estimateMessageSize. fold size.
  unfold JS.ceil, Qceiling, Qfloor, JS.of_nat.
  cbn [Qdiv Qinv Qmult Qopp inject_Z Qnum Qden].
  rewrite Z.mul_1_r, Pos.mul_1_l.
  pose proof (Z.div_mod (- Z.of_nat size) 4 ltac:(lia)) as Hdm.
  pose proof (Z.mod_pos_bound (- Z.of_nat size) 4 ltac:(lia)) as Hmod.
  lia.
Qed.

End StoreProperties.

(** * Closed instances on the byte-level host *)

Lemma compressContext_noop_witness :
  (JS.of_nat (countTokens Sample.JSON_stringify Sample.encode
                          [Sample.question; Sample.ok])
   <= JS.min (maxTokens (mkStrategy truncate 10000%Q None None))
             (window_or_default None * (75 # 100)))%Q
  /\ compressContext Sample.JSON_stringify Sample.encode
                     Sample.JSON_stringify_blocks 0
                     [Sample.question; Sample.ok]
                     (mkStrategy truncate 10000%Q None None) None
     = Some (mkCompressed [Sample.question; Sample.ok] None (JS.Finite 1)
                          40 40 (mkStrategy truncate 10000%Q None None)).
Proof.
  split.
  - vm_compute. discriminate.
  - apply compressContext_noop.
    vm_compute. discriminate.
Defined.

Lemma truncateContext_keeps_short_transcript_witness :
  length [Sample.question; Sample.ok] <= 5
  /\ truncateContext Sample.JSON_stringify Sample.encode
                     [Sample.question; Sample.ok] 2%Q 5
     = [Sample.question; Sample.ok].
Proof.
  split.
  - simpl. lia.
  - apply truncateContext_keeps_short_transcript. simpl. lia.
Defined.

Lemma truncateContext_budget_witness :
  1 < length ([Sample.question] ++ [Sample.ok])
  /\ truncateContext Sample.JSON_stringify Sample.encode
                     [Sample.question; Sample.ok] 2%Q 1 <> []
  /\ (JS.of_nat (countTokens Sample.JSON_stringify Sample.encode
                   (truncateContext Sample.JSON_stringify Sample.encode
                                    [Sample.question; Sample.ok] 2%Q 1))
      <= 2)%Q
  /\ truncateContext Sample.JSON_stringify Sample.encode
                     [Sample.question; Sample.ok] 1%Q 1 = [Sample.ok].
Proof.
  assert (1 < length ([Sample.question] ++ [Sample.ok])) as Hlen
      by (simpl; lia).
  split; [exact Hlen|].
  destruct (truncateContext_budget _ Sample.JSON_stringify _ Sample.encode
              [Sample.question] Sample.ok 2%Q 1 Hlen) as [Hne [Hfit _]].
  destruct (truncateContext_budget _ Sample.JSON_stringify _ Sample.encode
              [Sample.question] Sample.ok 1%Q 1 Hlen) as [_ [_ Hbig]].
  split; [exact Hne|]. split.
  - apply Hfit. vm_compute. discriminate.
  - apply Hbig. vm_compute. reflexivity.
Defined.

Lemma budget_monotone_truncate_summarize_witness :
  (600 <= 2000)%Q
  /\ (countTokens Sample.JSON_stringify Sample.encode
        (truncateContext Sample.JSON_stringify Sample.encode
                         (Sample.createMessages 10) 600%Q 5)
      <= countTokens Sample.JSON_stringify Sample.encode
           (truncateContext Sample.JSON_stringify Sample.encode
                            (Sample.createMessages 10) 2000%Q 5)
      /\ exists r_lo r_hi,
          compressContext Sample.JSON_stringify Sample.encode
                          Sample.JSON_stringify_blocks 3
                          (Sample.createMessages 10)
                          (mkStrategy truncate 600%Q None None) None
          = Some r_lo
          /\ compressContext Sample.JSON_stringify Sample.encode
                             Sample.JSON_stringify_blocks 3
                             (Sample.createMessages 10)
                             (mkStrategy truncate 2000%Q None None) None
             = Some r_hi
          /\ compressedTokenCount r_lo <= compressedTokenCount r_hi)
  /\ (exists r_lo,
         summarizeContext Sample.JSON_stringify Sample.encode
                          Sample.JSON_stringify_blocks 3
                          (Sample.createMessages 10) 600%Q = Some r_lo
         /\ countTokens Sample.JSON_stringify Sample.encode (fst r_lo) = 452
         /\ exists r_hi,
             summarize_returns Sample.JSON_stringify Sample.encode
                               Sample.JSON_stringify_blocks 2000%Q
                               (Sample.createMessages 10) r_hi
             /\ countTokens Sample.JSON_stringify Sample.encode (fst r_lo)
                <= countTokens Sample.JSON_stringify Sample.encode (fst r_hi))
  /\ (exists r_lo,
         compressContext Sample.JSON_stringify Sample.encode
                         Sample.JSON_stringify_blocks 3
                         (Sample.createMessages 10)
                         (mkStrategy summarize 600%Q None None) None
         = Some r_lo
         /\ compressedTokenCount r_lo = 452
         /\ exists r_hi,
             compressContext Sample.JSON_stringify Sample.encode
                             Sample.JSON_stringify_blocks 3
                             (Sample.createMessages 10)
                             (mkStrategy summarize 2000%Q None None) None
             = Some r_hi
             /\ compressedTokenCount r_lo <= compressedTokenCount r_hi).
Proof.
  assert (600 <= 2000)%Q as HT by (vm_compute; discriminate).
  split; [exact HT|].
  destruct (budget_monotone_truncate_summarize
              _ Sample.JSON_stringify _ Sample.encode
              Sample.JSON_stringify_blocks (Sample.createMessages 10)
              600%Q 2000%Q 5 None None None 3 HT) as [Htrunc [Hsum Hcomp]].
  split; [exact Htrunc|]. split; cycle 1.
  { destruct (compressContext Sample.JSON_stringify Sample.encode
                Sample.JSON_stringify_blocks 3 (Sample.createMessages 10)
                (mkStrategy summarize 600%Q None None) None)
      as [r_lo|] eqn:Hrun; [|vm_compute in Hrun; discriminate].
    exists r_lo. split; [reflexivity|]. split.
    - vm_compute in Hrun. injection Hrun as <-. reflexivity.
    - apply Hcomp. reflexivity. }
  destruct (summarizeContext Sample.JSON_stringify Sample.encode
              Sample.JSON_stringify_blocks 3 (Sample.createMessages 10) 600%Q)
    as [r_lo|] eqn:Hrun; [|vm_compute in Hrun; discriminate].
  exists r_lo. split; [reflexivity|]. split.
  - vm_compute in Hrun. injection Hrun as <-. vm_compute. reflexivity.
  - apply Hsum.
    apply (proj2 (summarizeContext_returns _ Sample.JSON_stringify _
                    Sample.encode Sample.JSON_stringify_blocks _ _ _)).
    exists 3. exact Hrun.
Defined.

(** The claim C1 as it is written fails on transcripts of two turns, of 38
and 2 tokens.  With the default [preserveRecent] the budget of 2 tokens
holds the most recent turn ([ok]), yet [truncateContext], and with it
[compressContext], returns the whole transcript, 40 tokens.  With
[preserveRecent = 1] and the short turn first, the budget of 2 tokens holds
a turn, yet the output is the most recent turn, 38 tokens. *)
Lemma truncateContext_exceeds_budget :
  (JS.le (JS.of_nat (countTokens Sample.JSON_stringify Sample.encode
                       [Sample.ok])) 2%Q = true
   /\ truncateContext Sample.JSON_stringify Sample.encode
                      [Sample.question; Sample.ok] 2%Q default_preserveRecent
      = [Sample.question; Sample.ok]
   /\ option_map (@compressedTokenCount Sample.json)
        (compressContext Sample.JSON_stringify Sample.encode
                         Sample.JSON_stringify_blocks 0
                         [Sample.question; Sample.ok]
                         (mkStrategy truncate 2%Q None None) None)
      = Some 40
   /\ JS.le (JS.of_nat 40) 2%Q = false)
  /\ (JS.le (JS.of_nat (countTokens Sample.JSON_stringify Sample.encode
                          [Sample.ok_first])) 2%Q = true
      /\ truncateContext Sample.JSON_stringify Sample.encode
                         [Sample.ok_first; Sample.question_last] 2%Q 1
         = [Sample.question_last]
      /\ JS.le (JS.of_nat (countTokens Sample.JSON_stringify Sample.encode
                             [Sample.question_last])) 2%Q = false).
Proof.
  repeat split; vm_compute; reflexivity.
Qed.

(** Sliding Window is not monotone in the budget: with the budget lowered
from 100 to 96 the output grows from 29 to 72 tokens.  Under 100 the user's turn (29 tokens) enters in the first loop and
the first representative (72 tokens) overflows; under 96 the user's turn
exceeds the 30% share, and the representative is kept. *)
Lemma slidingWindowCompress_not_monotone :
  (96 <= 100)%Q
  /\ countTokens Sample.JSON_stringify Sample.encode
       (slidingWindowCompress Sample.JSON_stringify Sample.encode
          Sample.JSON_stringify_blocks Sample.four_turns 100%Q) = 29
  /\ countTokens Sample.JSON_stringify Sample.encode
       (slidingWindowCompress Sample.JSON_stringify Sample.encode
          Sample.JSON_stringify_blocks Sample.four_turns 96%Q) = 72
  /\ ~ (countTokens Sample.JSON_stringify Sample.encode
          (slidingWindowCompress Sample.JSON_stringify Sample.encode
             Sample.JSON_stringify_blocks Sample.four_turns 96%Q)
        <= countTokens Sample.JSON_stringify Sample.encode
             (slidingWindowCompress Sample.JSON_stringify Sample.encode
                Sample.JSON_stringify_blocks Sample.four_turns 100%Q)).
Proof.
  split; [vm_compute; discriminate|].
  split; [vm_compute; reflexivity|].
  split; [vm_compute; reflexivity|].
  intros H. vm_compute in H. lia.
Qed.

(** Priority-Based is not monotone either: a truncated copy carries the
marker on top of the budget that was left. *)
Lemma priorityBasedCompress_not_monotone :
  (7 <= 19)%Q
  /\ countTokens Sample.JSON_stringify Sample.encode
       (priorityBasedCompress Sample.JSON_stringify Sample.encode
          Sample.JSON_stringify_blocks
          [Sample.lone; Sample.turn 1 assistant "abcdefghij"] 19%Q) = 10
  /\ countTokens Sample.JSON_stringify Sample.encode
       (priorityBasedCompress Sample.JSON_stringify Sample.encode
          Sample.JSON_stringify_blocks
          [Sample.lone; Sample.turn 1 assistant "abcdefghij"] 7%Q) = 22.
Proof.
  split; [vm_compute; discriminate|].
  split; vm_compute; reflexivity.
Qed.

Lemma no_turn_twice_witness :
  distinct_turns (Sample.createMessages 8)
  /\ map (@oid Sample.json)
       (slidingWindowCompress Sample.JSON_stringify Sample.encode
          Sample.JSON_stringify_blocks (Sample.createMessages 8) 400%Q)
     = [0; 2; 4]
  /\ map (@oid Sample.json)
       (priorityBasedCompress Sample.JSON_stringify Sample.encode
          Sample.JSON_stringify_blocks (Sample.createMessages 8) 400%Q)
     = [0; 2; 4; 6; 7]
  /\ distinct_turns
       (slidingWindowCompress Sample.JSON_stringify Sample.encode
          Sample.JSON_stringify_blocks (Sample.createMessages 8) 400%Q)
  /\ distinct_turns
       (priorityBasedCompress Sample.JSON_stringify Sample.encode
          Sample.JSON_stringify_blocks (Sample.createMessages 8) 400%Q).
Proof.
  assert (distinct_turns (Sample.createMessages 8)) as Hd.
  { unfold distinct_turns. simpl.
    repeat (constructor; [simpl; intuition lia|]). constructor. }
  split; [exact Hd|].
  split; [vm_compute; reflexivity|]. split; [vm_compute; reflexivity|].
  apply no_turn_twice. exact Hd.
Defined.

(** The claim C7 as it is written fails on a transcript that lists one
object at two indices: on [[hi; hi]] with a budget of 100 tokens the first
loop of [slidingWindowCompress] pushes the object for index 0 and for
index 1, and [priorityBasedCompress] keeps it for both records. *)
Lemma same_object_returned_twice :
  slidingWindowCompress Sample.JSON_stringify Sample.encode
    Sample.JSON_stringify_blocks [Sample.hi; Sample.hi] 100%Q
  = [Sample.hi; Sample.hi]
  /\ priorityBasedCompress Sample.JSON_stringify Sample.encode
       Sample.JSON_stringify_blocks [Sample.hi; Sample.hi] 100%Q
     = [Sample.hi; Sample.hi]
  /\ ~ distinct_turns
        (slidingWindowCompress Sample.JSON_stringify Sample.encode
           Sample.JSON_stringify_blocks [Sample.hi; Sample.hi] 100%Q)
  /\ ~ distinct_turns
        (priorityBasedCompress Sample.JSON_stringify Sample.encode
           Sample.JSON_stringify_blocks [Sample.hi; Sample.hi] 100%Q).
Proof.
  assert (~ distinct_turns [Sample.hi; Sample.hi]) as Hdup.
  { unfold distinct_turns. simpl. intros H.
    inversion H as [|? ? Hnotin _]; subst. apply Hnotin. left. reflexivity. }
  split; [vm_compute; reflexivity|]. split; [vm_compute; reflexivity|].
  split; intros H; apply Hdup; vm_compute in H |- *; exact H.
Qed.

Lemma slidingWindowCompress_may_return_nothing_witness :
  (exists s, Sample.encode s <> [])
  /\ exists (msgs : list Sample.Message) (targetTokens : JS.number),
       msgs <> [] /\ (0 < targetTokens)%Q
       /\ slidingWindowCompress Sample.JSON_stringify Sample.encode
            Sample.JSON_stringify_blocks msgs targetTokens = [].
Proof.
  assert (exists s, Sample.encode s <> []) as Hs
      by (exists "a"%string; vm_compute; discriminate).
  split; [exact Hs|].
  apply slidingWindowCompress_may_return_nothing. exact Hs.
Defined.

(** The claim C8 as it is written fails for two of the four strategies:
for Sliding Window the budgets 96 and 100 give 72 and 29 tokens, for
Priority-Based the budgets 7 and 19 give 22 and 10 tokens. *)
Lemma budget_monotonicity_fails :
  ((96 <= 100)%Q
   /\ ~ (countTokens Sample.JSON_stringify Sample.encode
           (slidingWindowCompress Sample.JSON_stringify Sample.encode
              Sample.JSON_stringify_blocks Sample.four_turns 96%Q)
         <= countTokens Sample.JSON_stringify Sample.encode
              (slidingWindowCompress Sample.JSON_stringify Sample.encode
                 Sample.JSON_stringify_blocks Sample.four_turns 100%Q)))
  /\ ((7 <= 19)%Q
      /\ ~ (countTokens Sample.JSON_stringify Sample.encode
              (priorityBasedCompress Sample.JSON_stringify Sample.encode
                 Sample.JSON_stringify_blocks
                 [Sample.lone; Sample.turn 1 assistant "abcdefghij"] 7%Q)
            <= countTokens Sample.JSON_stringify Sample.encode
                 (priorityBasedCompress Sample.JSON_stringify Sample.encode
                    Sample.JSON_stringify_blocks
                    [Sample.lone; Sample.turn 1 assistant "abcdefghij"]
                    19%Q))).
Proof.
  destruct slidingWindowCompress_not_monotone as [H1 [_ [_ H2]]].
  destruct priorityBasedCompress_not_monotone as [H3 [H4 H5]].
  split; [split; [exact H1 | exact H2]|].
  split; [exact H3|]. rewrite H4, H5. lia.
Qed.

(** C2 (the service's own test scenario).  Summarizing the twenty test
messages under a budget of 100 tokens never returns: the first activation
preserves the last four turns, and on four turns [summarizeContext] calls
itself on the same four turns again. *)
Theorem summarizeContext_never_returns_on_test_scenario :
  summarizeStep Sample.JSON_stringify Sample.encode Sample.JSON_stringify_blocks
                (skipn 16 (Sample.createMessages 20)) 100%Q
  = Recurse (skipn 16 (Sample.createMessages 20))
  /\ (forall fuel,
         compressContext Sample.JSON_stringify Sample.encode
                         Sample.JSON_stringify_blocks fuel
                         (Sample.createMessages 20)
                         (mkStrategy summarize 100%Q None None) None
         = None)
  /\ (forall r,
         ~ summarize_returns Sample.JSON_stringify Sample.encode
                             Sample.JSON_stringify_blocks 100%Q
                             (Sample.createMessages 20) r).
Proof.
  assert (summarizeStep Sample.JSON_stringify Sample.encode
                        Sample.JSON_stringify_blocks
                        (skipn 16 (Sample.createMessages 20)) 100%Q
          = Recurse (skipn 16 (Sample.createMessages 20))) as Hloop
      by (vm_compute; reflexivity).
  assert (summarizeStep Sample.JSON_stringify Sample.encode
                        Sample.JSON_stringify_blocks
                        (Sample.createMessages 20) 100%Q
          = Recurse (skipn 16 (Sample.createMessages 20))) as Hfirst
      by (vm_compute; reflexivity).
  destruct (summarizeContext_stuck _ Sample.JSON_stringify _ Sample.encode
              Sample.JSON_stringify_blocks _ _ Hloop) as [Hfuel Hrel].
  assert (forall fuel,
             summarizeContext Sample.JSON_stringify Sample.encode
                              Sample.JSON_stringify_blocks fuel
                              (Sample.createMessages 20) 100%Q = None) as Hnone.
  { intros [|fuel]; [reflexivity|].
    cbn [summarizeContext]. rewrite Hfirst. apply Hfuel. }
  split; [exact Hloop|]. split.
  - intros fuel. apply compressContext_summarize_none.
    + reflexivity.
    + vm_compute. reflexivity.
    + apply Hnone.
  - intros r Hr.
    apply summarizeContext_returns in Hr. destruct Hr as [fuel Hr].
    rewrite Hnone in Hr. discriminate.
Qed.

(** C3 (a failing input).  Priority-Based compression of [hi; report] under
a budget of 20 tokens keeps [hi] and a truncated copy of [report]; the copy,
made from the second turn, comes out before the first turn. *)
Theorem priorityBasedCompress_reorders_truncated_turn :
  option_map (@messages Sample.json)
    (compressContext Sample.JSON_stringify Sample.encode
                     Sample.JSON_stringify_blocks 0
                     [Sample.hi; Sample.report]
                     (mkStrategy priority_based 20%Q None None) None)
  = Some [Sample.turn 2 assistant "The build finished... [TRUNCATED]";
          Sample.hi].
Proof.
  vm_compute. reflexivity.
Qed.

(** ** Closed instances of the further properties *)

Local Abbreviation s_count := (countTokens Sample.JSON_stringify Sample.encode).
Local Abbreviation s_truncate :=
  (truncateContext Sample.JSON_stringify Sample.encode).
Local Abbreviation s_sliding :=
  (slidingWindowCompress Sample.JSON_stringify Sample.encode
                         Sample.JSON_stringify_blocks).
Local Abbreviation s_priority :=
  (priorityBasedCompress Sample.JSON_stringify Sample.encode
                         Sample.JSON_stringify_blocks).
Local Abbreviation s_summary :=
  (summaryMessage Sample.json
     (fresh_oid (Sample.createMessages 3))
     (generateSummary Sample.JSON_stringify_blocks [])).

Lemma countTokens_permutation_witness :
  Permutation [Sample.question; Sample.ok] [Sample.ok; Sample.question]
  /\ s_count [Sample.question; Sample.ok]
     = s_count [Sample.ok; Sample.question].
Proof.
  assert (Permutation [Sample.question; Sample.ok]
                      [Sample.ok; Sample.question]) as H by apply perm_swap.
  split; [exact H|].
  apply countTokens_permutation. exact H.
Defined.

Lemma truncateContext_keeps_recent_suffix_witness :
  1 <= 5
  /\ (exists dropped,
         Sample.createMessages 8
         = dropped ++ s_truncate (Sample.createMessages 8) 400%Q 5)
  /\ (5 < length (Sample.createMessages 8) ->
      JS.le (JS.of_nat (s_count (JS.slice_from (Sample.createMessages 8)
                                               (- Z.of_nat 5)))) 400%Q = true ->
      exists kept,
        s_truncate (Sample.createMessages 8) 400%Q 5
        = kept ++ JS.slice_from (Sample.createMessages 8) (- Z.of_nat 5)).
Proof.
  assert (1 <= 5) as H by lia.
  split; [exact H|].
  exact (truncateContext_keeps_recent_suffix _ Sample.JSON_stringify _
           Sample.encode (Sample.createMessages 8) 400%Q 5 H).
Defined.

Lemma truncateContext_zero_window_duplicates_witness :
  [Sample.question; Sample.ok] <> []
  /\ JS.le (JS.of_nat (s_count [Sample.question; Sample.ok]
                       + s_count [Sample.question; Sample.ok])) 80%Q = true
  /\ s_truncate [Sample.question; Sample.ok] 80%Q 0
     = [Sample.question; Sample.ok] ++ [Sample.question; Sample.ok].
Proof.
  assert ([Sample.question; Sample.ok] <> []) as Hne by discriminate.
  assert (JS.le (JS.of_nat (s_count [Sample.question; Sample.ok]
                            + s_count [Sample.question; Sample.ok])) 80%Q
          = true) as Hfit by (vm_compute; reflexivity).
  split; [exact Hne|]. split; [exact Hfit|].
  apply truncateContext_zero_window_duplicates; [exact Hne | exact Hfit].
Defined.

Lemma slidingWindowCompress_subsequence_witness :
  distinct_turns Sample.four_turns
  /\ Forall (fun m => In m Sample.four_turns) (s_sliding Sample.four_turns 96%Q)
  /\ StronglySorted Z.lt
       (map (JS.indexOf (@same Sample.json) Sample.four_turns)
            (s_sliding Sample.four_turns 96%Q))
  /\ length (s_sliding Sample.four_turns 96%Q) <= length Sample.four_turns.
Proof.
  assert (distinct_turns Sample.four_turns) as Hd.
  { unfold distinct_turns. simpl.
    repeat (constructor; [simpl; intuition lia|]). constructor. }
  split; [exact Hd|].
  apply slidingWindowCompress_subsequence. exact Hd.
Defined.

Lemma priorityBasedCompress_identity_when_fits_witness :
  distinct_turns Sample.four_turns
  /\ JS.le (JS.of_nat (s_count Sample.four_turns)) 1000%Q = true
  /\ s_priority Sample.four_turns 1000%Q = Sample.four_turns.
Proof.
  assert (distinct_turns Sample.four_turns) as Hd.
  { unfold distinct_turns. simpl.
    repeat (constructor; [simpl; intuition lia|]). constructor. }
  assert (JS.le (JS.of_nat (s_count Sample.four_turns)) 1000%Q = true) as Hfit
      by (vm_compute; reflexivity).
  split; [exact Hd|]. split; [exact Hfit|].
  apply priorityBasedCompress_identity_when_fits; [exact Hd | exact Hfit].
Defined.

Lemma compressContext_accounting_witness :
  compressContextWith Sample.JSON_stringify Sample.encode
    (service Sample.JSON_stringify Sample.encode Sample.JSON_stringify_blocks 0)
    [Sample.question; Sample.ok] (mkStrategy truncate 2%Q (Some 1) None) None
  = Some (mkCompressed [Sample.ok] None (JS.div 2 40) 40 2
                       (mkStrategy truncate 2%Q (Some 1) None))
  /\ originalTokenCount
       (mkCompressed [Sample.ok] None (JS.div 2 40) 40 2
                     (mkStrategy truncate 2%Q (Some 1) None))
     = s_count [Sample.question; Sample.ok].
Proof.
  assert (compressContextWith Sample.JSON_stringify Sample.encode
            (service Sample.JSON_stringify Sample.encode
                     Sample.JSON_stringify_blocks 0)
            [Sample.question; Sample.ok]
            (mkStrategy truncate 2%Q (Some 1) None) None
          = Some (mkCompressed [Sample.ok] None (JS.div 2 40) 40 2
                               (mkStrategy truncate 2%Q (Some 1) None))) as H
      by (vm_compute; reflexivity).
  split; [exact H|].
  exact (proj1 (compressContext_accounting _ Sample.JSON_stringify _
                  Sample.encode _ _ _ _ _ H)).
Defined.

Lemma adaptiveCompress_overflow_truncates_witness :
  (0 < 100)%Q
  /\ detectContextOverflow
       (JS.of_nat (s_count (Sample.createMessages 8))) 100%Q = true
  /\ option_map (@messages Sample.json)
       (adaptiveCompress Sample.JSON_stringify Sample.encode
                         Sample.JSON_stringify_blocks 0
                         (Sample.createMessages 8) 100%Q None)
     = Some (s_truncate (Sample.createMessages 8)
               (inject_Z (JS.floor (100 * (6 # 10))%Q))
               (Nat.min 10
                  (Z.to_nat
                     (JS.floor
                        (JS.of_nat (length (Sample.createMessages 8))
                         * (3 # 10))%Q)))).
Proof.
  assert (0 < 100)%Q as Hw by reflexivity.
  assert (detectContextOverflow
            (JS.of_nat (s_count (Sample.createMessages 8))) 100%Q = true)
    as Hover by (vm_compute; reflexivity).
  split; [exact Hw|]. split; [exact Hover|].
  apply adaptiveCompress_overflow_truncates; [exact Hw | exact Hover].
Defined.

Lemma summarizeContext_result_witness :
  summarize_returns Sample.JSON_stringify Sample.encode
                    Sample.JSON_stringify_blocks 10000%Q
                    (Sample.createMessages 3)
                    (s_summary :: Sample.createMessages 3,
                     generateSummary Sample.JSON_stringify_blocks [])
  /\ JS.le (JS.of_nat (s_count (s_summary :: Sample.createMessages 3)))
           10000%Q = true.
Proof.
  assert (summarize_returns Sample.JSON_stringify Sample.encode
            Sample.JSON_stringify_blocks 10000%Q (Sample.createMessages 3)
            (s_summary :: Sample.createMessages 3,
             generateSummary Sample.JSON_stringify_blocks [])) as H
      by (apply summarize_done; vm_compute; reflexivity).
  split; [exact H|].
  exact (proj1 (summarizeContext_result _ Sample.JSON_stringify _ Sample.encode
                  Sample.JSON_stringify_blocks _ _ _ _ H)).
Defined.

Lemma summarizeContext_short_transcript_witness :
  length (Sample.createMessages 3) < 5
  /\ (summarize_returns Sample.JSON_stringify Sample.encode
                        Sample.JSON_stringify_blocks 10000%Q
                        (Sample.createMessages 3)
                        (s_summary :: Sample.createMessages 3,
                         generateSummary Sample.JSON_stringify_blocks [])
      <-> (JS.le (JS.of_nat (s_count (s_summary :: Sample.createMessages 3)))
                 10000%Q = true
           /\ (s_summary :: Sample.createMessages 3,
               generateSummary Sample.JSON_stringify_blocks [])
              = (s_summary :: Sample.createMessages 3,
                 generateSummary Sample.JSON_stringify_blocks []))).
Proof.
  assert (length (Sample.createMessages 3) < 5) as H by (simpl; lia).
  split; [exact H|].
  exact (summarizeContext_short_transcript _ Sample.JSON_stringify _
           Sample.encode Sample.JSON_stringify_blocks 10000%Q
           (Sample.createMessages 3) _ H).
Defined.

Lemma compressMessages_shape_witness :
  50 < length SampleCC.sixty /\ 1 <= 10
  /\ exists kept,
      CC.compressMessages SampleCC.clock SampleCC.sixty 10
      = CC.createSummaryMessage SampleCC.clock
          (JS.slice SampleCC.sixty 0 (- Z.of_nat 10))
        :: kept ++ JS.slice_from SampleCC.sixty (- Z.of_nat 10)
      /\ length kept <= 5
      /\ Forall (fun m => CC.isImportantMessage m = true
                          /\ In m SampleCC.sixty) kept
      /\ length (CC.compressMessages SampleCC.clock SampleCC.sixty 10)
         <= 10 + 6.
Proof.
  assert (50 < length SampleCC.sixty) as Hlen by (simpl; lia).
  assert (1 <= 10) as Hp by lia.
  split; [exact Hlen|]. split; [exact Hp|].
  exact (compressMessages_shape _ SampleCC.clock SampleCC.sixty 10 Hlen Hp).
Defined.

Lemma compressMessages_summary_witness :
  50 < length SampleCC.sixty
  /\ exists s rest,
      CC.compressMessages SampleCC.clock SampleCC.sixty 10 = s :: rest
      /\ CC.role s = user
      /\ CC.isCompressed s = Some true
      /\ CC.originalSize s = Some (length SampleCC.sixty - 10)
      /\ CC.isImportantMessage s = true.
Proof.
  assert (50 < length SampleCC.sixty) as Hlen by (simpl; lia).
  split; [exact Hlen|].
  exact (compressMessages_summary _ SampleCC.clock SampleCC.sixty 10 Hlen).
Defined.

Lemma compressMessages_grows_witness :
  50 < length SampleCC.sixty /\ (0 = 0 \/ length SampleCC.sixty <= 0)
  /\ CC.compressMessages SampleCC.clock SampleCC.sixty 0
     = CC.createSummaryMessage SampleCC.clock [] :: SampleCC.sixty.
Proof.
  assert (50 < length SampleCC.sixty) as Hlen by (simpl; lia).
  assert (0 = 0 \/ length SampleCC.sixty <= 0) as Hp by (left; reflexivity).
  split; [exact Hlen|]. split; [exact Hp|].
  exact (compressMessages_grows _ SampleCC.clock SampleCC.sixty 0 Hlen Hp).
Defined.
